(** * folly::IOBuf (folly/io/IOBuf.h): buffer descriptors, chains, iterators

    A shallow embedding of the inline part of [folly::IOBuf] and the
    properties of its reslice operations, share detection, chain surgery,
    gather, copyBuffer and the chain iterator.

    Conventions.
    - [uint32_t] values are [Z] with the wrap-around written out ([wrap32]).
    - Pointers ([uint8_t*], [IOBuf*], [SharedInfo*]) are addresses in [Z];
      [nullptr] is [0].  Pointer arithmetic is plain addition on [Z].
    - A method that only touches the fields of [*this] is a function on the
      [IOBuf] record (and on the byte memory where it moves bytes).
    - A method that follows pointers to other objects runs in the monad [M]
      over the store [State] (objects, shared-info blocks, bytes). *)

From Stdlib Require Import ZArith Lia List Bool.
From stdpp Require Import base option list gmap.

#[local] Open Scope Z_scope.

(** ** Machine integers and pointers *)

Definition uint32_max : Z := 2 ^ 32 - 1.

Definition wrap32 (z : Z) : Z := z mod 2 ^ 32.

Definition is_uint32 (z : Z) : Prop := 0 <= z <= uint32_max.

Abbreviation ptr := Z (only parsing).

Definition nullptr : ptr := 0.

(** ** Byte memory *)

Definition memory : Type := Z -> Byte.byte.

(** [memmove(dst, src, n)]: every byte of the destination range receives
    the byte that the source range held before the call, so the move is
    safe when the ranges overlap. *)
Definition memmove (m : memory) (dst src n : Z) : memory :=
  fun a => if (dst <=? a) && (a <? dst + n) then m (a - dst + src) else m a.

(** [memcpy(dst, src, n)] agrees with [memmove] whenever it is defined
    (ranges that do not overlap). *)
Definition memcpy (m : memory) (dst src n : Z) : memory := memmove m dst src n.

(** The [n] bytes stored at [a], [a+1], ..., [a+n-1]. *)
Definition bytes_at (m : memory) (a n : Z) : list Byte.byte :=
  m <$> seqZ a n.

(** ** The descriptor *)

(** [enum FlagsEnum : uint32_t] *)
Definition kFlagUserOwned : Z := 1.
Definition kFlagFreeSharedInfo : Z := 2.
Definition kFlagMaybeShared : Z := 4.

(** [enum ExtBufTypeEnum] *)
Inductive ExtBufTypeEnum : Type :=
  | kExtAllocated
  | kExtUserSupplied
  | kExtUserOwned
  | kCombinedAlloc.

(** [struct SharedInfo] *)
Record SharedInfo : Type := mkSharedInfo {
  freeFn : ptr;
  userData : ptr;
  refcount : Z
}.

(** The member variables of [class IOBuf]. *)
Record IOBuf : Type := mkIOBuf {
  next_ : ptr;
  prev_ : ptr;
  data_ : ptr;
  buf_ : ptr;
  length_ : Z;
  capacity_ : Z;
  flags_ : Z;
  type_ : ExtBufTypeEnum;
  sharedInfo_ : ptr
}.

Definition set_next_ (v : ptr) (b : IOBuf) : IOBuf :=
  mkIOBuf v (prev_ b) (data_ b) (buf_ b) (length_ b) (capacity_ b)
          (flags_ b) (type_ b) (sharedInfo_ b).

Definition set_prev_ (v : ptr) (b : IOBuf) : IOBuf :=
  mkIOBuf (next_ b) v (data_ b) (buf_ b) (length_ b) (capacity_ b)
          (flags_ b) (type_ b) (sharedInfo_ b).

Definition set_data_ (v : ptr) (b : IOBuf) : IOBuf :=
  mkIOBuf (next_ b) (prev_ b) v (buf_ b) (length_ b) (capacity_ b)
          (flags_ b) (type_ b) (sharedInfo_ b).

Definition set_length_ (v : Z) (b : IOBuf) : IOBuf :=
  mkIOBuf (next_ b) (prev_ b) (data_ b) (buf_ b) v (capacity_ b)
          (flags_ b) (type_ b) (sharedInfo_ b).

Definition set_flags_ (v : Z) (b : IOBuf) : IOBuf :=
  mkIOBuf (next_ b) (prev_ b) (data_ b) (buf_ b) (length_ b) (capacity_ b)
          v (type_ b) (sharedInfo_ b).

(** *** Accessors *)

Definition data (b : IOBuf) : ptr := data_ b.
Definition writableData (b : IOBuf) : ptr := data_ b.
Definition tail (b : IOBuf) : ptr := data_ b + length_ b.
Definition writableTail (b : IOBuf) : ptr := data_ b + length_ b.
Definition length (b : IOBuf) : Z := length_ b.
Definition buffer (b : IOBuf) : ptr := buf_ b.
Definition writableBuffer (b : IOBuf) : ptr := buf_ b.
Definition bufferEnd (b : IOBuf) : ptr := buf_ b + capacity_ b.
Definition capacity (b : IOBuf) : Z := capacity_ b.

(** The pointer difference is converted to [uint32_t]. *)
Definition headroom (b : IOBuf) : Z := wrap32 (data_ b - buffer b).
Definition tailroom (b : IOBuf) : Z := wrap32 (bufferEnd b - tail b).

(** *** Reslice operations *)

(** The [assert] and [DCHECK_LE] lines state preconditions and are compiled
    out of release builds; they are hypotheses of the properties below,
    not steps of the functions. *)

Definition advance (amount : Z) (b : IOBuf) (m : memory) : IOBuf * memory :=
  let m' := if 0 <? length_ b
            then memmove m (data_ b + amount) (data_ b) (length_ b)
            else m in
  (set_data_ (data_ b + amount) b, m').

Definition retreat (amount : Z) (b : IOBuf) (m : memory) : IOBuf * memory :=
  let m' := if 0 <? length_ b
            then memmove m (data_ b - amount) (data_ b) (length_ b)
            else m in
  (set_data_ (data_ b - amount) b, m').

Definition prepend (amount : Z) (b : IOBuf) : IOBuf :=
  let b1 := set_data_ (data_ b - amount) b in
  set_length_ (wrap32 (length_ b1 + amount)) b1.

Definition append (amount : Z) (b : IOBuf) : IOBuf :=
  set_length_ (wrap32 (length_ b + amount)) b.

Definition trimStart (amount : Z) (b : IOBuf) : IOBuf :=
  let b1 := set_data_ (data_ b + amount) b in
  set_length_ (wrap32 (length_ b1 - amount)) b1.

Definition trimEnd (amount : Z) (b : IOBuf) : IOBuf :=
  set_length_ (wrap32 (length_ b - amount)) b.

Definition clear (b : IOBuf) : IOBuf :=
  let b1 := set_data_ (writableBuffer b) b in
  set_length_ 0 b1.

(** ** The data-model invariant of one descriptor *)

(** [buf <= data <= data + length <= buf + cap], with [length] and [cap]
    values of their type [uint32_t]. *)
Record buf_inv (b : IOBuf) : Prop := mk_buf_inv {
  inv_length : is_uint32 (length_ b);
  inv_capacity : is_uint32 (capacity_ b);
  inv_head : buf_ b <= data_ b;
  inv_window : data_ b <= data_ b + length_ b;
  inv_tail : data_ b + length_ b <= buf_ b + capacity_ b
}.

(** ** The store and the monad of methods that follow pointers *)

(** The objects of the program: [IOBuf] objects and [SharedInfo] blocks by
    address, the bytes, and the free region [brk, heap_end) of the
    allocator. *)
Record State : Type := mkState {
  objs : gmap Z IOBuf;
  infos : gmap Z SharedInfo;
  mem : memory;
  brk : Z;
  heap_end : Z
}.

(** [std::bad_alloc] and [std::overflow_error]. *)
Inductive Exception : Type :=
  | OutOfMemory
  | Overflow.

(** A call returns, throws, or has undefined behaviour (it dereferences a
    pointer to no object); [OutOfFuel] is the bound of a loop of the model
    being reached, not an outcome of the program. *)
Inductive Result (A : Type) : Type :=
  | Ok (a : A)
  | Throw (e : Exception)
  | Undefined
  | OutOfFuel.

Arguments Ok {A} a.
Arguments Throw {A} e.
Arguments Undefined {A}.
Arguments OutOfFuel {A}.

Definition M (A : Type) : Type := State -> Result (A * State).

#[global] Instance M_ret : MRet M := fun A a s => Ok (a, s).

#[global] Instance M_bind : MBind M := fun A B f c s =>
  match c s with
  | Ok (a, s') => f a s'
  | Throw e => Throw e
  | Undefined => Undefined
  | OutOfFuel => OutOfFuel
  end.

Definition throw {A : Type} (e : Exception) : M A := fun _ => Throw e.

Definition load (p : ptr) : M IOBuf := fun s =>
  match objs s !! p with
  | Some b => Ok (b, s)
  | None => Undefined
  end.

Definition store (p : ptr) (b : IOBuf) : M unit := fun s =>
  Ok (tt, mkState (<[p := b]> (objs s)) (infos s) (mem s) (brk s) (heap_end s)).

Definition set_objs (o : gmap Z IOBuf) (s : State) : State :=
  mkState o (infos s) (mem s) (brk s) (heap_end s).

(** Reads and writes of the link fields through a pointer: [p->next_],
    [p->prev_], [p->next_ = v], [p->prev_ = v]. *)
Definition get_next (p : ptr) : M ptr := b ← load p; mret (next_ b).
Definition get_prev (p : ptr) : M ptr := b ← load p; mret (prev_ b).
Definition put_next (p v : ptr) : M unit := b ← load p; store p (set_next_ v b).
Definition put_prev (p v : ptr) : M unit := b ← load p; store p (set_prev_ v b).

(** [separateChain(head, tail)].  The two [assert]s ([head != this] and
    [tail != this]) are preconditions.  Each of the four assignments reads
    the store as the one before it left it. *)
Definition separateChain (this head tail : ptr) : M ptr :=
  hp ← get_prev head; tn ← get_next tail; put_next hp tn;;
  tn ← get_next tail; hp ← get_prev head; put_prev tn hp;;
  put_prev head tail;;
  put_next tail head;;
  mret head.

(** A method of [*this] that only rewrites its own fields. *)
Definition call (this : ptr) (f : IOBuf -> IOBuf) : M unit :=
  b ← load this; store this (f b).

(** A method of [*this] that rewrites its own fields and moves bytes. *)
Definition call_mem (this : ptr) (f : IOBuf -> memory -> IOBuf * memory)
  : M unit := fun s =>
  match objs s !! this with
  | Some b =>
      let (b', m') := f b (mem s) in
      Ok (tt, mkState (<[this := b']> (objs s)) (infos s) m' (brk s) (heap_end s))
  | None => Undefined
  end.

Definition write_mem (f : memory -> memory) : M unit := fun s =>
  Ok (tt, mkState (objs s) (infos s) (f (mem s)) (brk s) (heap_end s)).

Definition modify_infos (f : gmap Z SharedInfo -> gmap Z SharedInfo) : M unit :=
  fun s => Ok (tt, mkState (objs s) (f (infos s)) (mem s) (brk s) (heap_end s)).

(** The object at [p] ceases to exist. *)
Definition delete_IOBuf (p : ptr) : M unit := fun s =>
  Ok (tt, mkState (delete p (objs s)) (infos s) (mem s) (brk s) (heap_end s)).

Definition out_of_fuel {A : Type} : M A := fun _ => OutOfFuel.

Definition load_info (p : ptr) : M SharedInfo := fun s =>
  match infos s !! p with
  | Some i => Ok (i, s)
  | None => Undefined
  end.

(** The objects after the four assignments of [separateChain(head, tail)],
    where [P] is [head->prev_] and [N] is [tail->next_] before the call. *)
Definition separated (head tail P N : ptr) (o : gmap Z IOBuf) : gmap Z IOBuf :=
  alter (set_next_ head) tail
    (alter (set_prev_ tail) head
       (alter (set_prev_ P) N
          (alter (set_next_ N) P o))).

(** ** Share detection *)

Section ShareDetection.

(** The macro [LIKELY] of folly/Likely.h, a branch-prediction hint, is
    not part of this header; it is a parameter here. *)
Variable LIKELY : Z -> Z.

(** [flags_] is [mutable]: the [const] method may clear [kFlagMaybeShared]. *)
Definition isSharedOne (this : ptr) : M bool :=
  b ← load this;
  if LIKELY (Z.land (flags_ b) (Z.lor kFlagUserOwned kFlagMaybeShared)) =? 0
  then mret false
  else if negb (Z.land (flags_ b) kFlagUserOwned =? 0)
  then mret true
  else
    info ← load_info (sharedInfo_ b);
    let shared := 1 <? refcount info in
    (if negb shared
     then store this
            (set_flags_ (Z.land (flags_ b) (wrap32 (Z.lnot kFlagMaybeShared))) b)
     else mret tt);;
    mret shared.

End ShareDetection.

(** The object that the default member initializers build at address
    [this]: [next_{this}], [prev_{this}], [data_{nullptr}], [buf_{nullptr}],
    [length_{0}], [capacity_{0}], [flags_{kFlagUserOwned}],
    [type_{kExtUserOwned}], [sharedInfo_{nullptr}]. *)
Definition IOBuf_default (this : ptr) : IOBuf :=
  mkIOBuf this this nullptr nullptr 0 0 kFlagUserOwned kExtUserOwned nullptr.

(** ** reserve *)

Section Reserve.

(** [reserveSlow] is declared in the header and defined elsewhere. *)
Variable reserveSlow : Z -> Z -> ptr -> M unit.

Definition reserve (minHeadroom minTailroom : Z) (this : ptr) : M unit :=
  b ← load this;
  if (minHeadroom <=? headroom b) && (minTailroom <=? tailroom b)
  then mret tt
  else if (length b =? 0) &&
          (wrap32 (minHeadroom + minTailroom)
             <=? wrap32 (headroom b + tailroom b))
  then store this (set_data_ (writableBuffer b + minHeadroom) b)
  else reserveSlow minHeadroom minTailroom this.

End Reserve.

(** ** Chains *)

(** [isChained]; the [assert] is compiled out with [NDEBUG]. *)
Definition isChained (this : ptr) : M bool :=
  b ← load this; mret (negb (next_ b =? this)).

(** The fields of a descriptor other than its chain links. *)
Definition payload (b : IOBuf) : IOBuf := set_next_ nullptr (set_prev_ nullptr b).

(** The value of the link field [f] of the object at [x]. *)
Definition link_of (f : IOBuf -> ptr) (o : gmap Z IOBuf) (x : ptr)
  : option ptr := f <$> o !! x.

(** Every element of [l] is an object whose [f] link is the element that
    follows it in [l]; the link of the last one is [after]. *)
Fixpoint links (f : IOBuf -> ptr) (o : gmap Z IOBuf) (l : list ptr)
  (after : ptr) : Prop :=
  match l with
  | [] => True
  | x :: r => link_of f o x = Some (List.hd after r) /\ links f o r after
  end.

(** [l] closes into a cycle along [f]. *)
Definition cyclic (f : IOBuf -> ptr) (o : gmap Z IOBuf) (l : list ptr) : Prop :=
  links f o l (List.hd nullptr l).

(** [l] lists the members of one chain in [next_] order: distinct non-null
    objects, circular along [next_], and circular along [prev_] in the
    opposite order. *)
Definition is_chain (o : gmap Z IOBuf) (l : list ptr) : Prop :=
  (l <> []) /\ NoDup l /\ (nullptr ∉ l) /\
  cyclic next_ o l /\ cyclic prev_ o (reverse l).

#[global] Instance links_dec f o l after : Decision (links f o l after).
Proof.
  revert after; induction l as [|x r IH]; intros after; simpl.
  - left; exact I.
  - unfold link_of. apply and_dec; [ apply _ | apply IH ].
Defined.

#[global] Instance is_chain_dec o l : Decision (is_chain o l).
Proof. unfold is_chain, cyclic. apply _. Defined.

(** ** Iterator *)

(** [ByteRange]: a pair of pointers [b_, e_). *)
Record ByteRange : Type := mkByteRange {
  b_ : ptr;
  e_ : ptr
}.

(** [ByteRange()] *)
Definition ByteRange_empty : ByteRange := mkByteRange nullptr nullptr.

(** [class IOBuf::Iterator] *)
Record Iterator : Type := mkIterator {
  pos_ : ptr;
  end_ : ptr;
  val_ : ByteRange
}.

Definition setVal (it : Iterator) : M Iterator :=
  b ← load (pos_ it);
  mret (mkIterator (pos_ it) (end_ it) (mkByteRange (data b) (tail b))).

(** [Iterator(pos, end)] *)
Definition Iterator_new (pos end' : ptr) : M Iterator :=
  let it := mkIterator pos end' ByteRange_empty in
  if negb (pos =? nullptr) then setVal it else mret it.

Definition adjustForEnd (it : Iterator) : M Iterator :=
  if pos_ it =? end_ it
  then mret (mkIterator nullptr nullptr ByteRange_empty)
  else setVal it.

Definition dereference (it : Iterator) : ByteRange := val_ it.

Definition equal (it other : Iterator) : bool :=
  (pos_ it =? pos_ other) && (end_ it =? end_ other).

Definition increment (it : Iterator) : M Iterator :=
  n ← get_next (pos_ it);
  adjustForEnd (mkIterator n (end_ it) (val_ it)).

(** Modelled from the spec: [cbegin] and [cend], declared in the header and
    defined elsewhere.  The spec encodes [end] as [{pos=null, end=null}],
    and [begin] stores the element it is built from both as position and
    as end sentinel. *)
Definition cbegin (this : ptr) : M Iterator := Iterator_new this this.

Definition cend : M Iterator := Iterator_new nullptr nullptr.

(** The loop that walks from [it] to [last], collecting the value each
    position dereferences to. *)
Fixpoint iterate (fuel : nat) (it last : Iterator) : M (list ByteRange) :=
  if equal it last then mret []
  else match fuel with
       | O => out_of_fuel
       | S fuel' =>
           it' ← increment it;
           rest ← iterate fuel' it' last;
           mret (dereference it :: rest)
       end.

(** The byte range of one chain element. *)
Definition range_of (b : IOBuf) : ByteRange := mkByteRange (data b) (tail b).

(** The byte range of the chain element at address [x]. *)
Definition range_at (o : gmap Z IOBuf) (x : ptr) : ByteRange :=
  default ByteRange_empty (range_of <$> o !! x).

(** The end iterator. *)
Definition end_iterator : Iterator :=
  mkIterator nullptr nullptr ByteRange_empty.

(** ** Allocation *)

(** The allocator's size rounding ([goodExtBufferSize] and the capacity
    that [allocExtBuffer] reports), declared in the header and defined
    elsewhere: it never returns less than what is asked, and a capacity is
    a [uint32_t]. *)
Class Allocator : Type := mkAllocator {
  goodCapacity : Z -> Z;
  goodCapacity_ge : forall c, is_uint32 c -> c <= goodCapacity c;
  goodCapacity_uint32 : forall c, is_uint32 c -> is_uint32 (goodCapacity c)
}.

(** An address at which no [SharedInfo] lives yet. *)
Definition fresh_info (s : State) : ptr := fresh ({[nullptr]} ∪ dom (infos s)).

(** An address at which no [IOBuf] lives yet. *)
Definition fresh_obj (s : State) : ptr := fresh ({[nullptr]} ∪ dom (objs s)).

(** [new IOBuf(...)]: the object is placed at an unused address; its
    fields may mention that address. *)
Definition new_IOBuf (init : ptr -> IOBuf) : M ptr := fun s =>
  let this := fresh_obj s in
  Ok (this, mkState (<[this := init this]> (objs s)) (infos s) (mem s)
                    (brk s) (heap_end s)).

Section Allocation.

Context `{Allocator}.

(** Modelled from the spec: [allocExtBuffer], declared in the header and
    defined elsewhere.  It yields a new arena of the rounded capacity with
    its [SharedInfo] at reference count 1 and no free function, or raises
    [OutOfMemory]. *)
Definition allocExtBuffer (minCapacity : Z) : M (ptr * ptr * Z) := fun s =>
  let capacity := goodCapacity minCapacity in
  if brk s + capacity <=? heap_end s then
    let info := fresh_info s in
    Ok ((brk s, info, capacity),
        mkState (objs s) (<[info := mkSharedInfo nullptr nullptr 1]> (infos s))
                (mem s) (brk s + capacity) (heap_end s))
  else Throw OutOfMemory.

(** Modelled from the spec: [create(capacity)], declared in the header and
    defined elsewhere: a new Allocated arena of at least [capacity] bytes,
    [data = buf], [length = 0], a singleton chain. *)
Definition create (capacity : Z) : M ptr :=
  '(buf, info, cap) ← allocExtBuffer capacity;
  new_IOBuf (fun this =>
    mkIOBuf this this buf buf 0 cap 0 kExtAllocated info).

End Allocation.

(** ** copyBuffer *)

Section CopyBuffer.

(** The factory [create], declared in the header and defined elsewhere. *)
Variable create : Z -> M ptr.

Definition copyBuffer (data : ptr) (size headroom minTailroom : Z) : M ptr :=
  let capacity := wrap32 (headroom + size + minTailroom) in
  buf ← create capacity;
  call_mem buf (advance headroom);;
  b ← load buf;
  write_mem (fun m => memcpy m (writableData b) data size);;
  call buf (append size);;
  mret buf.

End CopyBuffer.

(** ** coalesce and gather *)

Definition heap_size : M nat := fun s => Ok (size (objs s), s).

(** Modelled from the spec: [decrementRefcount], declared in the header and
    defined elsewhere.  A UserOwned arena has no reference count; otherwise
    the count drops by one and the arena's block is released when it
    reaches 0. *)
Definition decrementRefcount (this : ptr) : M unit :=
  b ← load this;
  if negb (Z.land (flags_ b) kFlagUserOwned =? 0) then mret tt
  else
    info ← load_info (sharedInfo_ b);
    let rc := refcount info - 1 in
    modify_infos (fun i =>
      if rc =? 0 then delete (sharedInfo_ b) i
      else <[sharedInfo_ b := mkSharedInfo (freeFn info) (userData info) rc]> i).

(** Modelled from the spec: destruction of the descriptors of a detached
    chain; each one drops its arena reference and ceases to exist. *)
Fixpoint destroyAll (l : list ptr) : M unit :=
  match l with
  | [] => mret tt
  | p :: rest =>
      decrementRefcount p;;
      delete_IOBuf p;;
      destroyAll rest
  end.

(** The chain elements from [cur] up to the one whose [next_] is [end']. *)
Fixpoint segments (fuel : nat) (cur end' : ptr) : M (list ptr) :=
  n ← get_next cur;
  if n =? end' then mret [cur]
  else match fuel with
       | O => out_of_fuel
       | S fuel' => rest ← segments fuel' n end'; mret (cur :: rest)
       end.

(** Copy the valid window of each segment, one after the other, to [dst]. *)
Fixpoint copySegments (segs : list ptr) (dst : ptr) : M unit :=
  match segs with
  | [] => mret tt
  | p :: rest =>
      b ← load p;
      write_mem (fun m => memcpy m dst (data_ b) (length_ b));;
      copySegments rest (dst + length_ b)
  end.

Section Coalesce.

Context `{Allocator}.

(** Modelled from the spec: [coalesceAndReallocate(newHeadroom, newLength,
    end, newTailroom)], declared in the header and defined elsewhere.  It
    raises [Overflow] when the size does not fit the 32-bit capacity,
    allocates the new arena (nothing is changed when that fails), copies
    the segments of the chain from [this] on into it at offset
    [newHeadroom], points [this] at the new arena with the new data and
    length, splices the other coalesced elements out of the chain and
    destroys them.  As in the header's two-argument overload, which takes
    the tailroom from [end->prev_], [end'] is the element that follows the
    last coalesced one.  The spec does not say what becomes of the arena
    [this] pointed at before; its reference count is left alone here. *)
Definition coalesceAndReallocate (newHeadroom newLength : Z) (end' : ptr)
  (newTailroom : Z) (this : ptr) : M unit :=
  let newCapacity := newHeadroom + newLength + newTailroom in
  if uint32_max <? newCapacity then throw Overflow
  else
    fuel ← heap_size;
    segs ← segments fuel this end';
    '(newBuf, newInfo, actualCapacity) ← allocExtBuffer newCapacity;
    copySegments segs (newBuf + newHeadroom);;
    call this (fun b =>
      mkIOBuf (next_ b) (prev_ b) (newBuf + newHeadroom) newBuf newLength
              actualCapacity 0 kExtAllocated newInfo);;
    match List.tl segs with
    | [] => mret tt
    | first :: _ =>
        last ← get_prev end';
        separateChain this first last;;
        destroyAll (List.tl segs)
    end.

(** The two-argument overload, defined in the header. *)
Definition coalesceAndReallocate2 (newLength : Z) (end' : ptr) (this : ptr)
  : M unit :=
  b ← load this;
  ep ← get_prev end';
  e ← load ep;
  coalesceAndReallocate (headroom b) newLength end' (tailroom e) this.

(** Sum the lengths from [cur] on until the sum reaches [maxLength]; the
    result is the sum and the element after the last one counted.  When
    the walk is back at [this] before that, the chain is too short: the
    header's comment on [gather] says that it throws [std::overflow_error]
    if [maxLength] is longer than the total chain length. *)
Fixpoint gatherScan (fuel : nat) (maxLength : Z) (this cur : ptr) (acc : Z)
  : M (Z * ptr) :=
  b ← load cur;
  let acc' := acc + length_ b in
  if maxLength <=? acc' then mret (acc', next_ b)
  else if next_ b =? this then throw Overflow
  else match fuel with
       | O => out_of_fuel
       | S fuel' => gatherScan fuel' maxLength this (next_ b) acc'
       end.

(** Modelled from the spec: [coalesceSlow(maxLength)], declared in the
    header and defined elsewhere: like coalesce, but it stops once the
    leading contiguous region has at least [maxLength] bytes; the elements
    counted by the scan are coalesced into [this]. *)
Definition coalesceSlow (maxLength : Z) (this : ptr) : M unit :=
  fuel ← heap_size;
  '(newLength, end') ← gatherScan fuel maxLength this this 0;
  coalesceAndReallocate2 newLength end' this.

Definition gather (maxLength : Z) (this : ptr) : M unit :=
  chained ← isChained this;
  b ← load this;
  if negb chained || (maxLength <=? length_ b) then mret tt
  else coalesceSlow maxLength this.

End Coalesce.

(** ** Further methods of the header *)

(** [unlink()]: [next_->prev_ = prev_; prev_->next_ = next_; prev_ = this;
    next_ = this; return this]. *)
Definition unlink (this : ptr) : M ptr :=
  n ← get_next this; p ← get_prev this; put_prev n p;;
  p ← get_prev this; n ← get_next this; put_next p n;;
  put_prev this this;;
  put_next this this;;
  mret this.

(** [pop()]: as [unlink()], but the result is the element that followed
    [this], or [nullptr] when [this] was alone. *)
Definition pop (this : ptr) : M ptr :=
  next ← get_next this;
  n ← get_next this; p ← get_prev this; put_prev n p;;
  p ← get_prev this; n ← get_next this; put_next p n;;
  put_prev this this;;
  put_next this this;;
  mret (if next =? this then nullptr else next).

(** The objects after the four assignments of [unlink()], where [P] is
    [prev_] and [N] is [next_] of [this] before the call. *)
Definition unlinked (this P N : ptr) (o : gmap Z IOBuf) : gmap Z IOBuf :=
  alter (set_next_ this) this
    (alter (set_prev_ this) this
       (alter (set_next_ N) P
          (alter (set_prev_ P) N o))).

Section SharedChain.

Variable LIKELY : Z -> Z.

(** The loop of [isShared()]: [current] is tested with [isSharedOne], then
    moved along [next_]; the loop ends with [false] when it is back at
    [this]. *)
Fixpoint isShared_from (fuel : nat) (this current : ptr) : M bool :=
  shared ← isSharedOne LIKELY current;
  if (shared : bool) then mret true
  else
    n ← get_next current;
    if n =? this then mret false
    else match fuel with
         | O => out_of_fuel
         | S fuel' => isShared_from fuel' this n
         end.

Definition isShared (fuel : nat) (this : ptr) : M bool :=
  isShared_from fuel this this.

(** [unshareOneSlow] and [unshareChained] are declared in the header and
    defined elsewhere. *)
Variable unshareOneSlow : ptr -> M unit.
Variable unshareChained : ptr -> M unit.



End SharedChain.

Section CoalesceAll.

(** The overload [coalesceSlow()] without argument is declared in the
    header and defined elsewhere. *)
Variable coalesceSlow_all : ptr -> M unit.

(** [coalesce()]; the result [ByteRange(data_, length_)] is the range of
    [length_] bytes from [data_]. *)
Definition coalesce (this : ptr) : M ByteRange :=
  chained ← isChained this;
  (if (chained : bool) then coalesceSlow_all this else mret tt);;
  b ← load this;
  mret (mkByteRange (data_ b) (data_ b + length_ b)).

End CoalesceAll.

(** A [std::string] argument: where its characters are and how many
    ([size_t]). *)
Record StdString : Type := mkStdString {
  str_data : ptr;
  str_size : Z
}.

Section CopyString.

Variable create : Z -> M ptr.

(** [copyBuffer(const std::string&, headroom, minTailroom)]; the [size_t]
    size is converted to the [uint32_t] parameter. *)
Definition copyBuffer_string (buf : StdString) (headroom minTailroom : Z)
  : M ptr :=
  copyBuffer create (str_data buf) (wrap32 (str_size buf)) headroom minTailroom.

(** [maybeCopyBuffer]: [nullptr] for the empty string. *)
Definition maybeCopyBuffer (buf : StdString) (headroom minTailroom : Z)
  : M ptr :=
  if str_size buf =? 0 then mret nullptr
  else copyBuffer create (str_data buf) (wrap32 (str_size buf))
                  headroom minTailroom.

End CopyString.

(** Whether [isSharedOne] reports the descriptor [b] as shared, given the
    reference counts [i]. *)
Definition reports_shared (i : gmap Z SharedInfo) (b : IOBuf) : Prop :=
  Z.land (flags_ b) kFlagUserOwned <> 0 \/
  (Z.land (flags_ b) kFlagMaybeShared <> 0 /\
   exists info, i !! sharedInfo_ b = Some info /\ 1 < refcount info).

(** A descriptor that is not UserOwned points at a [SharedInfo]. *)
Definition has_info (i : gmap Z SharedInfo) (b : IOBuf) : Prop :=
  Z.land (flags_ b) kFlagUserOwned = 0 -> is_Some (i !! sharedInfo_ b).

(** ** Sample descriptors and stores *)

Definition sample_buf : IOBuf :=
  mkIOBuf 16 16 4104 4096 5 64 0 kExtAllocated 32.

Definition sample_mem : memory := fun a =>
  if a =? 4104 then Byte.x68
  else if a =? 4105 then Byte.x65
  else if a =? 4106 then Byte.x6c
  else if a =? 4107 then Byte.x6c
  else if a =? 4108 then Byte.x6f
  else Byte.x00.

(** An empty descriptor over a 64-byte arena at 4096. *)
Definition overflow_buf : IOBuf :=
  mkIOBuf 16 16 4096 4096 0 64 0 kExtAllocated 32.

Definition overflow_state : State :=
  mkState {[16 := overflow_buf]} {[32 := mkSharedInfo nullptr nullptr 1]}
          (fun _ => Byte.x00) 8192 65536.

(** An empty descriptor over a 10-byte arena at 4096. *)
Definition small_buf : IOBuf :=
  mkIOBuf 16 16 4096 4096 0 10 0 kExtAllocated 32.

Definition small_state : State :=
  mkState {[16 := small_buf]} {[32 := mkSharedInfo nullptr nullptr 1]}
          (fun _ => Byte.x00) 8192 65536.

(** A descriptor with the MaybeShared flag set whose arena has a single
    reference left. *)
Definition shared_buf : IOBuf :=
  mkIOBuf 16 16 4096 4096 8 64 kFlagMaybeShared kExtAllocated 32.

Definition shared_state : State :=
  mkState {[16 := shared_buf]} {[32 := mkSharedInfo nullptr nullptr 1]}
          (fun _ => Byte.x00) 8192 65536.

(** A default-constructed descriptor at address 16 and nothing else. *)
Definition default_state : State :=
  mkState {[16 := IOBuf_default 16]} ∅ (fun _ => Byte.x00) 8192 65536.

(** A store with no descriptor yet, the bytes of [sample_mem], and a large
    free region. *)
Definition roomy_state : State :=
  mkState ∅ ∅ sample_mem 8192 (2 ^ 40).

(** The allocator that hands out exactly the capacity asked for. *)
Definition exact_allocator : Allocator.
Proof.
  refine (mkAllocator (fun c => c) _ _).
  - intros c _. apply Z.le_refl.
  - intros c Hc. exact Hc.
Defined.

(** A chain of five descriptors at 16, 32, 48, 64 and 80, each with a
    two-byte window on an arena of its own. *)
Definition chain5_node (prev this next : ptr) : IOBuf :=
  mkIOBuf next prev (4096 + this) (4096 + this) 2 16 0 kExtAllocated
          (8 + this).

Definition chain5_state : State :=
  mkState
    (<[16 := chain5_node 80 16 32]>
       (<[32 := chain5_node 16 32 48]>
          (<[48 := chain5_node 32 48 64]>
             (<[64 := chain5_node 48 64 80]>
                (<[80 := chain5_node 64 80 16]> ∅)))))
    (<[24 := mkSharedInfo nullptr nullptr 1]>
       (<[40 := mkSharedInfo nullptr nullptr 1]>
          (<[56 := mkSharedInfo nullptr nullptr 1]>
             (<[72 := mkSharedInfo nullptr nullptr 1]>
                (<[88 := mkSharedInfo nullptr nullptr 1]> ∅)))))
    (fun _ => Byte.x61) 8192 65536.

(** The store that [gather(3)] on the head of [chain5_state] leaves, with
    the allocator that hands out exact capacities. *)
Definition gathered_state : State :=
  Eval vm_compute in
    match gather (H := exact_allocator) 3 16 chain5_state with
    | Ok (_, s) => s
    | _ => chain5_state
    end.

(** The chain of [chain5_state] with the descriptor at 64 sharing its
    arena with one other holder. *)
Definition shared_chain_state : State :=
  mkState
    (<[64 := set_flags_ kFlagMaybeShared (chain5_node 48 64 80)]>
       (objs chain5_state))
    (<[72 := mkSharedInfo nullptr nullptr 2]> (infos chain5_state))
    (mem chain5_state) (brk chain5_state) (heap_end chain5_state).

(** * Properties *)

(** ** Arithmetic of [uint32_t] *)

Lemma wrap32_small (z : Z) : is_uint32 z -> wrap32 z = z.
Proof.
  unfold is_uint32, uint32_max, wrap32. intros Hz.
  apply Z.mod_small. lia.
Qed.

Lemma wrap32_range (z : Z) : is_uint32 (wrap32 z).
Proof.
  unfold is_uint32, uint32_max, wrap32.
  pose proof (Z.mod_pos_bound z (2 ^ 32) eq_refl). lia.
Qed.

Lemma headroom_exact (b : IOBuf) :
  buf_inv b -> headroom b = data_ b - buf_ b.
Proof.
  intros [Hl Hc Hh Hw Ht]. unfold headroom, buffer.
  apply wrap32_small. unfold is_uint32 in *. lia.
Qed.

Lemma tailroom_exact (b : IOBuf) :
  buf_inv b -> tailroom b = buf_ b + capacity_ b - (data_ b + length_ b).
Proof.
  intros [Hl Hc Hh Hw Ht]. unfold tailroom, bufferEnd, tail.
  apply wrap32_small. unfold is_uint32 in *. lia.
Qed.

(** ** The reslice operations keep the invariant *)

Ltac inv_arith :=
  unfold is_uint32, uint32_max in *; simpl in *;
  try (rewrite wrap32_small by (unfold is_uint32, uint32_max; lia)); lia.

Lemma advance_inv (n : Z) (b : IOBuf) (m : memory) :
  buf_inv b -> 0 <= n -> n <= tailroom b -> buf_inv (fst (advance n b m)).
Proof.
  intros Hb Hn Hle. rewrite tailroom_exact in Hle by done.
  destruct Hb as [Hl Hc Hh Hw Ht].
  split; inv_arith.
Qed.

Lemma retreat_inv (n : Z) (b : IOBuf) (m : memory) :
  buf_inv b -> 0 <= n -> n <= headroom b -> buf_inv (fst (retreat n b m)).
Proof.
  intros Hb Hn Hle. rewrite headroom_exact in Hle by done.
  destruct Hb as [Hl Hc Hh Hw Ht].
  split; inv_arith.
Qed.

Lemma prepend_inv (n : Z) (b : IOBuf) :
  buf_inv b -> 0 <= n -> n <= headroom b -> buf_inv (prepend n b).
Proof.
  intros Hb Hn Hle. rewrite headroom_exact in Hle by done.
  destruct Hb as [Hl Hc Hh Hw Ht].
  split; inv_arith.
Qed.

Lemma append_inv (n : Z) (b : IOBuf) :
  buf_inv b -> 0 <= n -> n <= tailroom b -> buf_inv (append n b).
Proof.
  intros Hb Hn Hle. rewrite tailroom_exact in Hle by done.
  destruct Hb as [Hl Hc Hh Hw Ht].
  split; inv_arith.
Qed.

Lemma trimStart_inv (n : Z) (b : IOBuf) :
  buf_inv b -> 0 <= n -> n <= length b -> buf_inv (trimStart n b).
Proof.
  unfold length. intros [Hl Hc Hh Hw Ht] Hn Hle.
  split; inv_arith.
Qed.

Lemma trimEnd_inv (n : Z) (b : IOBuf) :
  buf_inv b -> 0 <= n -> n <= length b -> buf_inv (trimEnd n b).
Proof.
  unfold length. intros [Hl Hc Hh Hw Ht] Hn Hle.
  split; inv_arith.
Qed.

Lemma clear_inv (b : IOBuf) : buf_inv b -> buf_inv (clear b).
Proof.
  intros [Hl Hc Hh Hw Ht]. unfold clear, writableBuffer.
  split; inv_arith.
Qed.

(** ** advance *)

Lemma memmove_dst (m : memory) (dst src n i : Z) :
  0 <= i < n -> memmove m dst src n (dst + i) = m (src + i).
Proof.
  intros Hi. unfold memmove.
  destruct (Z.leb_spec dst (dst + i)); [|lia].
  destruct (Z.ltb_spec (dst + i) (dst + n)); [|lia].
  simpl. f_equal. lia.
Qed.

Lemma memmove_other (m : memory) (dst src n a : Z) :
  ~ (dst <= a < dst + n) -> memmove m dst src n a = m a.
Proof.
  intros Ha. unfold memmove.
  destruct (Z.leb_spec dst a); [|done].
  destruct (Z.ltb_spec a (dst + n)); [lia|done].
Qed.

Lemma bytes_at_ext (m m' : memory) (a a' n : Z) :
  (forall i, 0 <= i < n -> m' (a' + i) = m (a + i)) ->
  bytes_at m' a' n = bytes_at m a n.
Proof.
  intros Hext. unfold bytes_at.
  apply list_eq. intros k.
  rewrite !list_lookup_fmap.
  destruct (decide (Z.of_nat k < n)) as [Hk|Hk].
  - rewrite !lookup_seqZ_lt by lia. simpl. f_equal. apply Hext. lia.
  - rewrite !lookup_seqZ_ge by lia. done.
Qed.

Lemma bytes_at_length (m : memory) (a n : Z) :
  List.length (bytes_at m a n) = Z.to_nat n.
Proof. unfold bytes_at. by rewrite length_fmap, length_seqZ. Qed.

(** C3.  For a descriptor that satisfies the invariant and [n <= tailroom],
    [advance(n)] moves the valid window forward by [n] bytes (every byte of
    the new window is the byte that was [n] places before it, and the
    bytes outside the new window are untouched) and adds [n] to [data];
    the length is unchanged, the headroom grows by exactly [n], the
    tailroom shrinks by exactly [n], and the byte sequence of the valid
    window is the same before and after. *)
Theorem advance_moves_window (n : Z) (b : IOBuf) (m : memory) :
  buf_inv b -> is_uint32 n -> n <= tailroom b ->
  let b' := fst (advance n b m) in
  let m' := snd (advance n b m) in
  data b' = data b + n /\
  (forall i, 0 <= i < length b -> m' (data b + n + i) = m (data b + i)) /\
  (forall a, ~ (data b + n <= a < data b + n + length b) -> m' a = m a) /\
  length b' = length b /\
  headroom b' = headroom b + n /\
  tailroom b' = tailroom b - n /\
  bytes_at m' (data b') (length b') = bytes_at m (data b) (length b) /\
  buf_inv b'.
Proof.
  intros Hb Hn Hle b' m'.
  assert (Hb' : buf_inv b') by (apply advance_inv; [done| apply Hn |done]).
  assert (Hmove : forall i, 0 <= i < length b ->
                            m' (data b + n + i) = m (data b + i)).
  { intros i Hi. subst m'. unfold advance, length, data in *. simpl.
    destruct (Z.ltb_spec 0 (length_ b)); [|lia].
    by apply memmove_dst. }
  split_and!; try done.
  - intros a Ha. subst m'. unfold advance, length, data in *. simpl.
    destruct (Z.ltb_spec 0 (length_ b)); [|done].
    by apply memmove_other.
  - rewrite (headroom_exact b'), (headroom_exact b) by done.
    subst b'. simpl. lia.
  - rewrite (tailroom_exact b'), (tailroom_exact b) by done.
    subst b'. simpl. lia.
  - apply bytes_at_ext. intros i Hi. apply Hmove. apply Hi.
Qed.

Lemma sample_buf_inv : buf_inv sample_buf.
Proof. split; unfold is_uint32, uint32_max; simpl; lia. Qed.

Lemma advance_moves_window_witness :
  bytes_at (snd (advance 3 sample_buf sample_mem)) 4107 5
  = [Byte.x68; Byte.x65; Byte.x6c; Byte.x6c; Byte.x6f]
  /\ headroom (fst (advance 3 sample_buf sample_mem)) = 11.
Proof.
  assert (Hn : is_uint32 3) by (unfold is_uint32, uint32_max; lia).
  assert (Hle : 3 <= tailroom sample_buf) by (vm_compute; discriminate).
  destruct (advance_moves_window 3 sample_buf sample_mem
              sample_buf_inv Hn Hle)
    as (_ & _ & _ & _ & Hh & _ & Hbytes & _).
  split.
  - etransitivity; [exact Hbytes|]. reflexivity.
  - etransitivity; [exact Hh|]. reflexivity.
Defined.

(** ** Running the monad *)

Lemma bind_load {A : Type} (p : ptr) (k : IOBuf -> M A) (s : State) (b : IOBuf) :
  objs s !! p = Some b -> (load p ≫= k) s = k b s.
Proof. intros Hb. unfold mbind, M_bind, load. by rewrite Hb. Qed.

Lemma bind_ok {A B : Type} (c : M A) (k : A -> M B) (s s' : State) (a : A) :
  c s = Ok (a, s') -> (c ≫= k) s = k a s'.
Proof. intros Hc. unfold mbind, M_bind. by rewrite Hc. Qed.

Lemma bind_inv {A B : Type} (c : M A) (k : A -> M B) (s s2 : State) (r : B) :
  (c ≫= k) s = Ok (r, s2) ->
  exists a s1, c s = Ok (a, s1) /\ k a s1 = Ok (r, s2).
Proof.
  unfold mbind, M_bind. destruct (c s) as [[a s1]| | |]; try discriminate.
  intros Hk. by exists a, s1.
Qed.

(** ** reserve *)

Section ReserveProps.

Variable reserveSlow : Z -> Z -> ptr -> M unit.

(** An ask that is already satisfied changes nothing. *)
Lemma reserve_noop (h t : Z) (this : ptr) (s : State) (b : IOBuf) :
  objs s !! this = Some b -> h <= headroom b -> t <= tailroom b ->
  reserve reserveSlow h t this s = Ok (tt, s).
Proof.
  intros Hb Hh Ht. unfold reserve. rewrite (bind_load _ _ _ _ Hb).
  destruct (Z.leb_spec h (headroom b)); [|lia].
  destruct (Z.leb_spec t (tailroom b)); [|lia].
  done.
Qed.

(** The second fast path, when the sum of the asks fits a [uint32_t]: the
    empty window is re-seated at [buf + h], the invariant holds again and
    both asks are met. *)
Lemma reserve_reseat (h t : Z) (this : ptr) (s : State) (b : IOBuf) :
  objs s !! this = Some b -> buf_inv b ->
  0 <= h -> 0 <= t -> h + t <= uint32_max ->
  ~ (h <= headroom b /\ t <= tailroom b) ->
  length b = 0 -> h + t <= headroom b + tailroom b ->
  let b' := set_data_ (buf_ b + h) b in
  reserve reserveSlow h t this s
    = Ok (tt, mkState (<[this := b']> (objs s)) (infos s) (mem s)
                      (brk s) (heap_end s)) /\
  buf_inv b' /\ h <= headroom b' /\ t <= tailroom b'.
Proof.
  intros Hb Hinv Hh Ht Hsum Hnot Hlen Hroom b'.
  pose proof (headroom_exact b Hinv) as Hhr.
  pose proof (tailroom_exact b Hinv) as Htr.
  destruct Hinv as [Hl Hc Hhd Hw Htl]. unfold length in Hlen.
  assert (Hinv' : buf_inv b').
  { subst b'. split; simpl; unfold is_uint32, uint32_max in *; lia. }
  split_and!; try done.
  - unfold reserve. rewrite (bind_load _ _ _ _ Hb).
    destruct ((h <=? headroom b) && (t <=? tailroom b)) eqn:E1.
    { apply andb_true_iff in E1 as [E1 E2]. lia. }
    unfold length. rewrite Hlen. simpl.
    rewrite !wrap32_small by (unfold is_uint32, uint32_max in *; lia).
    destruct (Z.leb_spec (h + t) (headroom b + tailroom b)); [|lia].
    done.
  - rewrite (headroom_exact b' Hinv'). subst b'. simpl. lia.
  - rewrite (tailroom_exact b' Hinv'). subst b'. simpl. lia.
Qed.

End ReserveProps.

(** C1.  On the empty descriptor [overflow_buf] (a 64-byte arena), the call
    [reserve(0xFFFFFFFF, 1)] takes the second fast path, because the sum of
    the asks wraps to 0 in [uint32_t] arithmetic, and re-seats [data] far
    past the end of the arena: the invariant held before the call and does
    not hold after it. *)
Theorem reserve_reseat_breaks_invariant (reserveSlow : Z -> Z -> ptr -> M unit) :
  buf_inv overflow_buf /\
  exists s1 b1,
    reserve reserveSlow uint32_max 1 16 overflow_state = Ok (tt, s1) /\
    objs s1 !! 16 = Some b1 /\
    data_ b1 = buf_ b1 + uint32_max /\
    capacity_ b1 = 64 /\
    ~ buf_inv b1.
Proof.
  split.
  - split; unfold is_uint32, uint32_max; simpl; lia.
  - eexists _, _. split_and!.
    + vm_compute. reflexivity.
    + vm_compute. reflexivity.
    + reflexivity.
    + reflexivity.
    + intros [_ _ _ _ Ht]. vm_compute in Ht. by apply Ht.
Qed.

(** C4.  On the empty descriptor [small_buf] (a 10-byte arena), the call
    [reserve(5, 0xFFFFFFFD)] returns normally through the second fast
    path, because the sum of the asks wraps to 2 in [uint32_t] arithmetic;
    afterwards the tailroom is 5, less than the 0xFFFFFFFD asked for. *)
Theorem reserve_wrapped_ask_unmet (reserveSlow : Z -> Z -> ptr -> M unit) :
  buf_inv small_buf /\
  exists s1 b1,
    reserve reserveSlow 5 (uint32_max - 2) 16 small_state = Ok (tt, s1) /\
    objs s1 !! 16 = Some b1 /\
    headroom b1 = 5 /\
    tailroom b1 = 5 /\
    tailroom b1 < uint32_max - 2.
Proof.
  split.
  - split; unfold is_uint32, uint32_max; simpl; lia.
  - eexists _, _. split_and!.
    + vm_compute. reflexivity.
    + vm_compute. reflexivity.
    + reflexivity.
    + reflexivity.
    + reflexivity.
Qed.

(** ** Share detection *)

Lemma land_flags_zero (f : Z) :
  Z.land f (Z.lor kFlagUserOwned kFlagMaybeShared) = 0 <->
  Z.land f kFlagUserOwned = 0 /\ Z.land f kFlagMaybeShared = 0.
Proof. rewrite Z.land_lor_distr_r. apply Z.lor_eq_0_iff. Qed.

Lemma clear_MaybeShared_bit (f : Z) :
  Z.land (Z.land f (wrap32 (Z.lnot kFlagMaybeShared))) kFlagMaybeShared = 0.
Proof. rewrite <- Z.land_assoc. apply Z.land_0_r. Qed.

Lemma clear_MaybeShared_UserOwned (f : Z) :
  Z.land (Z.land f (wrap32 (Z.lnot kFlagMaybeShared))) kFlagUserOwned
  = Z.land f kFlagUserOwned.
Proof. rewrite <- Z.land_assoc. reflexivity. Qed.

Lemma clear_MaybeShared_FreeSharedInfo (f : Z) :
  Z.land (Z.land f (wrap32 (Z.lnot kFlagMaybeShared))) kFlagFreeSharedInfo
  = Z.land f kFlagFreeSharedInfo.
Proof. rewrite <- Z.land_assoc. reflexivity. Qed.

Section ShareDetectionProps.

Variable LIKELY : Z -> Z.

(** The hint does not change whether its argument is zero. *)
Hypothesis LIKELY_zero : forall x, LIKELY x = 0 <-> x = 0.

(** C2.  [isSharedOne] returns [true] exactly when the UserOwned flag is
    set, or the MaybeShared flag is set and the reference count of the
    arena is greater than 1.  When UserOwned is clear, MaybeShared is set
    and the count read is 1, the call returns [false] and leaves the
    descriptor with MaybeShared cleared and nothing else changed; in every
    other case the store is unchanged.  [rc] is the count of the arena,
    which exists whenever the descriptor is not UserOwned. *)
Theorem isSharedOne_spec (this : ptr) (s : State) (b : IOBuf) (rc : Z) :
  objs s !! this = Some b ->
  (Z.land (flags_ b) kFlagUserOwned = 0 ->
   refcount <$> infos s !! sharedInfo_ b = Some rc) ->
  exists r s',
    isSharedOne LIKELY this s = Ok (r, s') /\
    (r = true <->
       Z.land (flags_ b) kFlagUserOwned <> 0 \/
       (Z.land (flags_ b) kFlagMaybeShared <> 0 /\ 1 < rc)) /\
    (Z.land (flags_ b) kFlagUserOwned = 0 ->
     Z.land (flags_ b) kFlagMaybeShared <> 0 -> rc = 1 ->
     r = false /\
     exists f',
       s' = mkState (<[this := set_flags_ f' b]> (objs s)) (infos s) (mem s)
                    (brk s) (heap_end s) /\
       Z.land f' kFlagMaybeShared = 0 /\
       Z.land f' kFlagUserOwned = Z.land (flags_ b) kFlagUserOwned /\
       Z.land f' kFlagFreeSharedInfo = Z.land (flags_ b) kFlagFreeSharedInfo) /\
    (~ (Z.land (flags_ b) kFlagUserOwned = 0 /\
        Z.land (flags_ b) kFlagMaybeShared <> 0 /\ rc <= 1) -> s' = s).
Proof.
  intros Hb Hrc. unfold isSharedOne. rewrite (bind_load _ _ _ _ Hb).
  destruct (Z.eqb_spec
              (LIKELY (Z.land (flags_ b) (Z.lor kFlagUserOwned kFlagMaybeShared)))
              0) as [Hz|Hnz].
  { apply LIKELY_zero, land_flags_zero in Hz as [Hu Hm].
    exists false, s. split_and!; [done| |congruence|done].
    split; [done|]. intros [?|[? _]]; congruence. }
  assert (Hset : ~ (Z.land (flags_ b) kFlagUserOwned = 0 /\
                    Z.land (flags_ b) kFlagMaybeShared = 0)).
  { intros Hboth. apply Hnz, LIKELY_zero, land_flags_zero, Hboth. }
  destruct (Z.eqb_spec (Z.land (flags_ b) kFlagUserOwned) 0) as [Hu|Hu]; simpl.
  2:{ exists true, s. split_and!; [done| |congruence|done].
      split; [by left|done]. }
  assert (Hm : Z.land (flags_ b) kFlagMaybeShared <> 0) by tauto.
  specialize (Hrc Hu).
  destruct (infos s !! sharedInfo_ b) as [info|] eqn:Hinfo; [|done].
  simpl in Hrc. injection Hrc as Hrc.
  unfold load_info. unfold mbind at 1, M_bind at 1. rewrite Hinfo, Hrc.
  destruct (Z.ltb_spec 1 rc) as [Hlt|Hge]; simpl.
  - exists true, s. split_and!; [done| |intros; lia|done].
    split; [by right|done].
  - eexists false, _. split_and!; [reflexivity| | |].
    + split; [done|]. intros [?|[_ ?]]; [done|lia].
    + intros _ _ _. split; [done|].
      eexists. split; [reflexivity|].
      split_and!.
      * apply clear_MaybeShared_bit.
      * apply clear_MaybeShared_UserOwned.
      * apply clear_MaybeShared_FreeSharedInfo.
    + intros Hn. exfalso. apply Hn. split_and!; [done|done|lia].
Qed.

(** C9.  The object built by the default member initializers is a
    singleton chain with null [data] and [buf], zero length and capacity,
    a null [SharedInfo] pointer and the UserOwned flag set, and
    [isSharedOne] returns [true] on it without changing anything. *)
Theorem default_IOBuf_is_shared (this : ptr) (s : State) :
  objs s !! this = Some (IOBuf_default this) ->
  let b := IOBuf_default this in
  next_ b = this /\ prev_ b = this /\
  data_ b = nullptr /\ buf_ b = nullptr /\
  length_ b = 0 /\ capacity_ b = 0 /\
  sharedInfo_ b = nullptr /\
  Z.land (flags_ b) kFlagUserOwned <> 0 /\
  isChained this s = Ok (false, s) /\
  isSharedOne LIKELY this s = Ok (true, s).
Proof.
  intros Hb b. split_and!; try reflexivity.
  - simpl. discriminate.
  - unfold isChained. rewrite (bind_load _ _ _ _ Hb). simpl.
    unfold mret, M_ret. by rewrite Z.eqb_refl.
  - unfold isSharedOne. rewrite (bind_load _ _ _ _ Hb). simpl.
    change (Z.land kFlagUserOwned (Z.lor kFlagUserOwned kFlagMaybeShared))
      with 1.
    destruct (Z.eqb_spec (LIKELY 1) 0) as [Hz|Hnz]; [|reflexivity].
    apply (proj1 (LIKELY_zero 1)) in Hz. discriminate.
Qed.

End ShareDetectionProps.

Lemma isSharedOne_spec_witness :
  exists r s',
    isSharedOne (fun x => x) 16 shared_state = Ok (r, s') /\
    r = false /\
    (flags_ <$> objs s' !! 16) = Some 0.
Proof.
  assert (HL : forall x : Z, (fun y : Z => y) x = 0 <-> x = 0)
    by (intros x; split; intros Hx; exact Hx).
  assert (Hb : objs shared_state !! 16 = Some shared_buf) by reflexivity.
  assert (Hrc : Z.land (flags_ shared_buf) kFlagUserOwned = 0 ->
                refcount <$> infos shared_state !! sharedInfo_ shared_buf
                = Some 1) by reflexivity.
  destruct (isSharedOne_spec (fun x => x) HL 16 shared_state shared_buf 1
              Hb Hrc) as (r & s' & Hrun & _ & Hclear & _).
  exists r, s'. split; [exact Hrun|].
  assert (Hu : Z.land (flags_ shared_buf) kFlagUserOwned = 0) by reflexivity.
  assert (Hm : Z.land (flags_ shared_buf) kFlagMaybeShared <> 0)
    by (vm_compute; discriminate).
  destruct (Hclear Hu Hm eq_refl) as [Hr _]. split; [exact Hr|].
  vm_compute in Hrun. injection Hrun as _ Hs'. subst s'. reflexivity.
Defined.

Lemma default_IOBuf_is_shared_witness :
  isSharedOne (fun x => x) 16 default_state = Ok (true, default_state).
Proof.
  assert (HL : forall x : Z, (fun y : Z => y) x = 0 <-> x = 0)
    by (intros x; split; intros Hx; exact Hx).
  assert (Hb : objs default_state !! 16 = Some (IOBuf_default 16))
    by reflexivity.
  apply (default_IOBuf_is_shared (fun x => x) HL 16 default_state Hb).
Defined.

(** ** copyBuffer *)

Lemma call_mem_run (this : ptr) (f : IOBuf -> memory -> IOBuf * memory)
  (s : State) (b : IOBuf) :
  objs s !! this = Some b ->
  call_mem this f s
  = Ok (tt, mkState (<[this := fst (f b (mem s))]> (objs s)) (infos s)
                    (snd (f b (mem s))) (brk s) (heap_end s)).
Proof.
  intros Hb. unfold call_mem. rewrite Hb. by destruct (f b (mem s)).
Qed.

Lemma call_run (this : ptr) (f : IOBuf -> IOBuf) (s : State) (b : IOBuf) :
  objs s !! this = Some b ->
  call this f s
  = Ok (tt, mkState (<[this := f b]> (objs s)) (infos s) (mem s)
                    (brk s) (heap_end s)).
Proof. intros Hb. unfold call. by rewrite (bind_load _ _ _ _ Hb). Qed.

Lemma fresh_obj_spec (s : State) :
  fresh_obj s <> nullptr /\ objs s !! fresh_obj s = None.
Proof.
  pose proof (is_fresh ({[nullptr]} ∪ dom (objs s))) as Hf.
  fold (fresh_obj s) in Hf. split.
  - set_solver.
  - apply not_elem_of_dom. set_solver.
Qed.

Lemma fresh_info_spec (s : State) :
  fresh_info s <> nullptr /\ infos s !! fresh_info s = None.
Proof.
  pose proof (is_fresh ({[nullptr]} ∪ dom (infos s))) as Hf.
  fold (fresh_info s) in Hf. split.
  - set_solver.
  - apply not_elem_of_dom. set_solver.
Qed.

Section CopyBufferProps.

Context `{Allocator}.

Lemma create_run (c : Z) (s : State) :
  brk s + goodCapacity c <= heap_end s ->
  create c s
  = Ok (fresh_obj s,
        mkState
          (<[fresh_obj s :=
               mkIOBuf (fresh_obj s) (fresh_obj s) (brk s) (brk s) 0
                       (goodCapacity c) 0 kExtAllocated (fresh_info s)]>
             (objs s))
          (<[fresh_info s := mkSharedInfo nullptr nullptr 1]> (infos s))
          (mem s) (brk s + goodCapacity c) (heap_end s)).
Proof.
  intros Hroom. unfold create, allocExtBuffer, mbind, M_bind.
  destruct (Z.leb_spec (brk s + goodCapacity c) (heap_end s)); [|lia].
  reflexivity.
Qed.

Lemma create_throws (c : Z) (s : State) :
  heap_end s < brk s + goodCapacity c -> create c s = Throw OutOfMemory.
Proof.
  intros Hroom. unfold create, allocExtBuffer, mbind, M_bind.
  destruct (Z.leb_spec (brk s + goodCapacity c) (heap_end s)); [lia|].
  reflexivity.
Qed.

(** What [copyBuffer] over the modelled [create] computes when the
    allocation succeeds. *)
Lemma copyBuffer_run (p size h t : Z) (s : State) :
  let cap := goodCapacity (wrap32 (h + size + t)) in
  brk s + cap <= heap_end s ->
  exists s1,
    copyBuffer create p size h t s = Ok (fresh_obj s, s1) /\
    objs s1 !! fresh_obj s
    = Some (mkIOBuf (fresh_obj s) (fresh_obj s) (brk s + h) (brk s)
                    (wrap32 (0 + size)) cap 0 kExtAllocated (fresh_info s)) /\
    infos s1 = <[fresh_info s := mkSharedInfo nullptr nullptr 1]> (infos s) /\
    mem s1 = memcpy (mem s) (brk s + h) p size /\
    (forall x, x <> fresh_obj s -> objs s1 !! x = objs s !! x).
Proof.
  intros cap Hroom. unfold copyBuffer.
  rewrite (bind_ok _ _ _ _ _ (create_run _ s Hroom)).
  erewrite bind_ok; [|apply call_mem_run; simpl; apply lookup_insert_eq].
  erewrite bind_load; [|simpl; apply lookup_insert_eq].
  erewrite bind_ok; [|reflexivity].
  erewrite bind_ok; [|apply call_run; simpl; apply lookup_insert_eq].
  eexists. split; [reflexivity|]. simpl.
  split_and!; try reflexivity.
  - by rewrite lookup_insert_eq.
  - intros x Hx. by rewrite !lookup_insert_ne.
Qed.

(** When [headroom + size + minTailroom] fits a [uint32_t] and the
    allocation succeeds, [copyBuffer] returns a singleton descriptor over a
    new Allocated arena with a single reference, of capacity at least the
    sum, with [data = buf + headroom] and [length = size], whose valid
    window holds the input bytes. *)
Lemma copyBuffer_fits (p size h t : Z) (s : State) :
  0 <= size -> 0 <= h -> 0 <= t -> h + size + t <= uint32_max ->
  brk s + goodCapacity (h + size + t) <= heap_end s ->
  exists this s1 b,
    copyBuffer create p size h t s = Ok (this, s1) /\
    objs s !! this = None /\ this <> nullptr /\
    objs s1 !! this = Some b /\
    next_ b = this /\ prev_ b = this /\
    type_ b = kExtAllocated /\
    refcount <$> infos s1 !! sharedInfo_ b = Some 1 /\
    infos s !! sharedInfo_ b = None /\
    buf_ b = brk s /\
    h + size + t <= capacity b /\
    data b = buf_ b + h /\
    length b = size /\
    bytes_at (mem s1) (data b) (length b) = bytes_at (mem s) p size /\
    buf_inv b.
Proof.
  intros Hsize Hh Ht Hsum Hroom.
  assert (Hu : is_uint32 (h + size + t)) by (unfold is_uint32; lia).
  assert (Hw : wrap32 (h + size + t) = h + size + t) by by apply wrap32_small.
  destruct (copyBuffer_run p size h t s) as (s1 & Hrun & Hb & Hi & Hm & _).
  { by rewrite Hw. }
  rewrite Hw in Hb.
  rewrite wrap32_small in Hb by (unfold is_uint32 in *; lia).
  pose proof (goodCapacity_ge _ Hu) as Hge.
  pose proof (goodCapacity_uint32 _ Hu) as Hcap.
  destruct (fresh_obj_spec s) as [Hfo1 Hfo2].
  destruct (fresh_info_spec s) as [Hfi1 Hfi2].
  eexists _, s1, _. split; [exact Hrun|].
  split_and!; try (exact Hb); try reflexivity; simpl; try done.
  - rewrite Hi. by rewrite lookup_insert_eq.
  - rewrite Hm. apply bytes_at_ext.
    intros i Hi'. unfold memcpy. apply memmove_dst. lia.
  - split; simpl; unfold is_uint32 in *; lia.
Qed.

End CopyBufferProps.

(** C7.  With [headroom = 0xFFFFFFFF], [size = 1] and [minTailroom = 0]
    the requested capacity wraps to 0.  For every allocator, [copyBuffer]
    returns a descriptor whose capacity is less than
    [headroom + size + minTailroom], whose [data] lies [0xFFFFFFFF] bytes
    past [buf], and which violates the invariant: the copied byte lies
    outside the arena. *)
Theorem copyBuffer_wrapped_capacity `{Allocator} :
  exists this s1 b,
    copyBuffer create 4104 1 uint32_max 0 roomy_state = Ok (this, s1) /\
    objs s1 !! this = Some b /\
    capacity b < uint32_max + 1 + 0 /\
    data b = buf_ b + uint32_max /\
    length b = 1 /\
    bufferEnd b < tail b /\
    ~ buf_inv b.
Proof.
  pose proof (goodCapacity_uint32 _ (wrap32_range (uint32_max + 1 + 0))) as Hc.
  destruct (copyBuffer_run 4104 1 uint32_max 0 roomy_state)
    as (s1 & Hrun & Hb & _).
  { simpl. set (c := goodCapacity _) in *.
    unfold is_uint32, uint32_max in Hc. lia. }
  eexists _, s1, _. split; [exact Hrun|]. split; [exact Hb|].
  unfold capacity, data, length, bufferEnd, tail. simpl.
  set (c := goodCapacity _) in *.
  change (wrap32 (0 + 1)) with 1.
  unfold is_uint32, uint32_max in *.
  split_and!; try reflexivity; try lia.
  intros [_ _ _ _ Ht]. simpl in Ht. fold c in Ht. lia.
Qed.

(** C10.  When [headroom + size + minTailroom] exceeds [2^32 - 1],
    [copyBuffer] hands the factory the sum modulo [2^32], which is less
    than the sum: whatever the factory is, the call is the factory applied
    to that capacity followed by a continuation that does not depend on
    the factory, and an exception leaves [copyBuffer] only if the factory
    raised that exception for that capacity; in particular [copyBuffer]
    raises no [Overflow] of its own. *)
Theorem copyBuffer_capacity_wraps (p size h t : Z) :
  is_uint32 size -> is_uint32 h -> is_uint32 t ->
  uint32_max < h + size + t ->
  (h + size + t) mod 2 ^ 32 < h + size + t /\
  exists k : ptr -> M ptr,
    (forall (create : Z -> M ptr) (s : State),
        copyBuffer create p size h t s
        = (create ((h + size + t) mod 2 ^ 32) ≫= k) s) /\
    (forall (create : Z -> M ptr) (s : State) (e : Exception),
        copyBuffer create p size h t s = Throw e ->
        create ((h + size + t) mod 2 ^ 32) s = Throw e).
Proof.
  intros Hsize Hh Ht Hsum. split.
  { pose proof (Z.mod_pos_bound (h + size + t) (2 ^ 32) eq_refl).
    unfold uint32_max in Hsum. lia. }
  eexists. split.
  - intros create s. unfold copyBuffer, wrap32. reflexivity.
  - intros create s e. unfold copyBuffer, wrap32.
    unfold mbind at 1, M_bind at 1.
    destruct (create ((h + size + t) mod 2 ^ 32) s) as [[buf s1]| e'| |];
      [|done|done|done].
    unfold call_mem, call, load, store, write_mem, mbind, M_bind, mret, M_ret.
    destruct (objs s1 !! buf) as [b|]; [|done].
    destruct (advance h b (mem s1)) as [b' m']. simpl.
    rewrite lookup_insert_eq. simpl. rewrite lookup_insert_eq. done.
Qed.

Lemma copyBuffer_capacity_wraps_witness :
  copyBuffer (@create exact_allocator) 4104 1 uint32_max 0 roomy_state
  <> Throw Overflow.
Proof.
  assert (H1 : is_uint32 1) by (unfold is_uint32, uint32_max; lia).
  assert (Hm : is_uint32 uint32_max) by (unfold is_uint32, uint32_max; lia).
  assert (H0 : is_uint32 0) by (unfold is_uint32, uint32_max; lia).
  assert (Hs : uint32_max < uint32_max + 1 + 0) by lia.
  destruct (copyBuffer_capacity_wraps 4104 1 uint32_max 0 H1 Hm H0 Hs)
    as (_ & k & _ & Hthrow).
  intros Hov. apply Hthrow in Hov.
  rewrite (@create_run exact_allocator) in Hov; [discriminate|].
  vm_compute. discriminate.
Defined.

(** ** Chains: links, rotation and framing *)

Lemma hd_app_default (d : ptr) (l1 l2 : list ptr) :
  List.hd d (l1 ++ l2) = List.hd (List.hd d l2) l1.
Proof. by destruct l1. Qed.

Lemma hd_head (d x : ptr) (l : list ptr) :
  head l = Some x -> List.hd d l = x.
Proof. destruct l; simpl; congruence. Qed.

Lemma hd_elem (d : ptr) (l : list ptr) : List.hd d l ∈ d :: l.
Proof.
  destruct l; simpl.
  - apply list_elem_of_here.
  - apply list_elem_of_further, list_elem_of_here.
Qed.

Lemma links_app (f : IOBuf -> ptr) (o : gmap Z IOBuf) (l1 l2 : list ptr)
  (n : ptr) :
  links f o (l1 ++ l2) n <-> links f o l1 (List.hd n l2) /\ links f o l2 n.
Proof.
  induction l1 as [|x r IH]; simpl.
  - tauto.
  - rewrite IH, hd_app_default. tauto.
Qed.

Lemma links_snoc (f : IOBuf -> ptr) (o : gmap Z IOBuf) (l : list ptr)
  (x n : ptr) :
  links f o (l ++ [x]) n <-> links f o l x /\ link_of f o x = Some n.
Proof. rewrite links_app. simpl. tauto. Qed.

(** The links of a list only depend on its own members. *)
Lemma links_frame (f : IOBuf -> ptr) (o o' : gmap Z IOBuf) (l : list ptr)
  (n : ptr) :
  (forall x, x ∈ l -> link_of f o' x = link_of f o x) ->
  links f o l n -> links f o' l n.
Proof.
  induction l as [|x r IH]; simpl; [done|].
  intros Hsame [Hx Hr]. split.
  - rewrite Hsame; [done|]. apply list_elem_of_here.
  - apply IH; [|done]. intros y Hy. apply Hsame. by apply list_elem_of_further.
Qed.

Lemma links_elem (f : IOBuf -> ptr) (o : gmap Z IOBuf) (l : list ptr)
  (n x : ptr) :
  links f o l n -> x ∈ l -> is_Some (o !! x).
Proof.
  induction l as [|y r IH]; simpl.
  - intros _ Hx. by apply elem_of_nil in Hx.
  - intros [Hy Hr] Hx. apply elem_of_cons in Hx as [->|Hx].
    + unfold link_of in Hy. destruct (o !! y); [by eexists|done].
    + by apply IH.
Qed.

(** A cycle may be entered at any member: moving the first element to the
    end gives the same cycle. *)
Lemma cyclic_rotate (f : IOBuf -> ptr) (o : gmap Z IOBuf) (x : ptr)
  (r : list ptr) :
  cyclic f o (x :: r) <-> cyclic f o (r ++ [x]).
Proof.
  unfold cyclic. rewrite links_snoc, hd_app_default. simpl. tauto.
Qed.

Lemma is_chain_rotate1 (o : gmap Z IOBuf) (x : ptr) (r : list ptr) :
  is_chain o (x :: r) -> is_chain o (r ++ [x]).
Proof.
  intros (_ & Hnd & Hnull & Hn & Hp). split_and!.
  - by destruct r.
  - apply NoDup_app. apply NoDup_cons in Hnd as [Hx Hr].
    split_and!; [done| |apply NoDup_singleton].
    intros y Hy Hy'. apply list_elem_of_singleton in Hy'. by subst.
  - intros Hin. apply Hnull. apply elem_of_app in Hin as [Hin|Hin].
    + by apply list_elem_of_further.
    + apply list_elem_of_singleton in Hin. rewrite Hin. apply list_elem_of_here.
  - by apply (proj1 (cyclic_rotate _ _ _ _)).
  - rewrite reverse_snoc. apply (proj2 (cyclic_rotate _ _ _ _)).
    by rewrite <- reverse_cons.
Qed.

Lemma is_chain_rotate (o : gmap Z IOBuf) (l1 l2 : list ptr) :
  l2 <> [] -> is_chain o (l1 ++ l2) -> is_chain o (l2 ++ l1).
Proof.
  revert l2. induction l1 as [|x r IH]; intros l2 Hne Hc.
  - by rewrite app_nil_r.
  - simpl in Hc. apply is_chain_rotate1 in Hc.
    rewrite <- app_assoc in Hc. apply IH in Hc; [|by destruct l2].
    by rewrite <- app_assoc in Hc.
Qed.

(** In a chain, [next_] and [prev_] are inverse to each other on every
    member, and lead to members. *)
Lemma is_chain_inverse (o : gmap Z IOBuf) (l : list ptr) (x : ptr) :
  is_chain o l -> x ∈ l ->
  exists n p,
    link_of next_ o x = Some n /\ link_of prev_ o n = Some x /\
    link_of prev_ o x = Some p /\ link_of next_ o p = Some x /\
    n ∈ l /\ p ∈ l.
Proof.
  intros Hc Hx. apply list_elem_of_split in Hx as (l1 & l2 & ->).
  assert (Hmem : forall y, y ∈ x :: l2 ++ l1 -> y ∈ l1 ++ x :: l2).
  { intros y. rewrite !elem_of_cons, !elem_of_app, !elem_of_cons. tauto. }
  apply is_chain_rotate in Hc; [|done]. simpl in Hc.
  destruct Hc as (_ & _ & _ & Hn & Hp).
  set (r := l2 ++ l1) in *. clearbody r.
  unfold cyclic in Hn, Hp. simpl in Hn. destruct Hn as [Hxn Hn].
  rewrite reverse_cons in Hp.
  exists (List.hd x r).
  destruct (last r) as [p|] eqn:Hlast.
  - apply last_Some in Hlast as [r' ->]. exists p.
    rewrite links_snoc in Hn. destruct Hn as [_ Hpn].
    rewrite reverse_snoc in Hp. simpl in Hp. destruct Hp as [Hpp Hrest].
    assert (Hxp : link_of prev_ o x = Some p).
    { pose proof (proj1 (links_snoc _ _ _ _ _) Hrest). tauto. }
    split_and!; try done.
    + destruct r' as [|n r'']; simpl.
      * simpl in Hpp. done.
      * rewrite reverse_cons in Hrest. rewrite <- app_assoc in Hrest.
        pose proof (proj1 (links_app _ _ _ _ _) Hrest) as Hsplit.
        simpl in Hsplit. tauto.
    + apply Hmem, hd_elem.
    + apply Hmem. rewrite elem_of_cons, elem_of_app, list_elem_of_singleton.
      tauto.
  - apply last_None in Hlast as ->. exists x. simpl in Hxn, Hp.
    destruct Hp as [Hxp _].
    split_and!; try done; apply Hmem, list_elem_of_here.
Qed.

(** Detaching the segment [mid] from the cycle [this :: A ++ mid ++ B]
    along one link field: the element before the segment is linked to the
    element after it, and the last element of the segment to its first. *)
Lemma detach_cycle (f : IOBuf -> ptr) (o o' : gmap Z IOBuf) (this : ptr)
  (A mid B : list ptr) (first last' P N : ptr) :
  NoDup (this :: A ++ mid ++ B) ->
  head mid = Some first -> last mid = Some last' ->
  last (this :: A) = Some P -> head (B ++ [this]) = Some N ->
  cyclic f o (this :: A ++ mid ++ B) ->
  link_of f o' last' = Some first ->
  link_of f o' P = Some N ->
  (forall x, x <> last' -> x <> P -> link_of f o' x = link_of f o x) ->
  cyclic f o' (this :: A ++ B) /\ cyclic f o' mid.
Proof.
  intros Hnd Hfirst Hlast HP HN Hcyc Hl' HP' Hother.
  change (this :: A ++ mid ++ B) with ((this :: A) ++ mid ++ B) in Hnd, Hcyc.
  apply NoDup_app in Hnd as (HndA & HA & Hnd).
  apply NoDup_app in Hnd as (Hndm & HmB & _).
  unfold cyclic in Hcyc. simpl List.hd in Hcyc.
  apply links_app in Hcyc as [HlA Hcyc]. apply links_app in Hcyc as [Hlm HlB].
  apply last_Some in HP as [A' HA']. apply last_Some in Hlast as [m' Hm'].
  assert (HNB : List.hd this B = N).
  { destruct B; simpl in HN; simpl; congruence. }
  rewrite HNB in Hlm.
  assert (Hlast_mid : last' ∈ mid).
  { rewrite Hm', elem_of_app, list_elem_of_singleton. tauto. }
  assert (HP_A : P ∈ this :: A).
  { rewrite HA', elem_of_app, list_elem_of_singleton. tauto. }
  assert (HndA' : P ∉ A').
  { rewrite HA' in HndA. apply NoDup_app in HndA as (_ & Hd & _).
    intros Hin. apply (Hd P Hin), list_elem_of_here. }
  assert (Hndm' : last' ∉ m').
  { rewrite Hm' in Hndm. apply NoDup_app in Hndm as (_ & Hd & _).
    intros Hin. apply (Hd last' Hin), list_elem_of_here. }
  split.
  - unfold cyclic. simpl List.hd.
    change (this :: A ++ B) with ((this :: A) ++ B).
    apply links_app. rewrite HNB. split.
    + rewrite HA' in HlA |- *. apply links_snoc in HlA as [HlA _].
      apply links_snoc. split; [|done].
      apply (links_frame f o); [|done].
      intros x Hx. apply Hother.
      * intros ->. apply (HA last').
        -- rewrite HA', elem_of_app. tauto.
        -- apply elem_of_app. tauto.
      * intros ->. done.
    + apply (links_frame f o); [|done].
      intros x Hx. apply Hother.
      * intros ->. by apply (HmB last').
      * intros ->. apply (HA P HP_A), elem_of_app. tauto.
  - unfold cyclic. rewrite (hd_head _ _ _ Hfirst).
    rewrite Hm' in Hlm |- *. apply links_snoc in Hlm as [Hlm _].
    apply links_snoc. split; [|done].
    apply (links_frame f o); [|done].
    intros x Hx. apply Hother.
    + intros ->. done.
    + intros ->. apply (HA P HP_A), elem_of_app. left.
      rewrite Hm', elem_of_app. tauto.
Qed.

(** ** separateChain *)

Lemma get_next_run (p v : ptr) (s : State) :
  link_of next_ (objs s) p = Some v -> get_next p s = Ok (v, s).
Proof.
  unfold link_of, get_next. intros Hv.
  destruct (objs s !! p) as [b|] eqn:Hb; [|done].
  rewrite (bind_load _ _ _ _ Hb). simpl in Hv.
  injection Hv as <-. reflexivity.
Qed.

Lemma get_prev_run (p v : ptr) (s : State) :
  link_of prev_ (objs s) p = Some v -> get_prev p s = Ok (v, s).
Proof.
  unfold link_of, get_prev. intros Hv.
  destruct (objs s !! p) as [b|] eqn:Hb; [|done].
  rewrite (bind_load _ _ _ _ Hb). simpl in Hv.
  injection Hv as <-. reflexivity.
Qed.

Lemma insert_as_alter (g : IOBuf -> IOBuf) (p : ptr) (b : IOBuf)
  (o : gmap Z IOBuf) :
  o !! p = Some b -> <[p := g b]> o = alter g p o.
Proof.
  intros Hb. apply map_eq. intros i.
  rewrite lookup_insert, lookup_alter.
  destruct (decide (p = i)) as [<-|]; [by rewrite Hb|done].
Qed.

Lemma put_next_run (p v : ptr) (s : State) :
  is_Some (objs s !! p) ->
  put_next p v s = Ok (tt, set_objs (alter (set_next_ v) p (objs s)) s).
Proof.
  intros [b Hb]. unfold put_next. rewrite (bind_load _ _ _ _ Hb).
  unfold store, set_objs. by rewrite (insert_as_alter (set_next_ v) _ _ _ Hb).
Qed.

Lemma put_prev_run (p v : ptr) (s : State) :
  is_Some (objs s !! p) ->
  put_prev p v s = Ok (tt, set_objs (alter (set_prev_ v) p (objs s)) s).
Proof.
  intros [b Hb]. unfold put_prev. rewrite (bind_load _ _ _ _ Hb).
  unfold store, set_objs. by rewrite (insert_as_alter (set_prev_ v) _ _ _ Hb).
Qed.

(** A write to one field shows in that field of that object only. *)
Lemma link_of_alter_hit (f : IOBuf -> ptr) (g : IOBuf -> IOBuf) (v p : ptr)
  (o : gmap Z IOBuf) :
  (forall b, f (g b) = v) -> is_Some (o !! p) ->
  link_of f (alter g p o) p = Some v.
Proof.
  intros Hf [b Hb]. unfold link_of. rewrite lookup_alter.
  case_decide; [|done]. rewrite Hb. simpl. by rewrite Hf.
Qed.

Lemma link_of_alter_ne (f : IOBuf -> ptr) (g : IOBuf -> IOBuf) (p x : ptr)
  (o : gmap Z IOBuf) :
  x <> p -> link_of f (alter g p o) x = link_of f o x.
Proof.
  intros Hx. unfold link_of. rewrite lookup_alter. by case_decide.
Qed.

Lemma link_of_alter_other (f : IOBuf -> ptr) (g : IOBuf -> IOBuf) (p x : ptr)
  (o : gmap Z IOBuf) :
  (forall b, f (g b) = f b) ->
  link_of f (alter g p o) x = link_of f o x.
Proof.
  intros Hf. unfold link_of. rewrite lookup_alter.
  case_decide; [|done]. subst. destruct (o !! x); simpl; [|done].
  by rewrite Hf.
Qed.

Lemma is_Some_alter (g : IOBuf -> IOBuf) (p x : ptr) (o : gmap Z IOBuf) :
  is_Some (alter g p o !! x) <-> is_Some (o !! x).
Proof.
  rewrite lookup_alter. case_decide; [|done]. subst.
  by rewrite fmap_is_Some.
Qed.

Lemma separateChain_run (this head tail P N : ptr) (s : State) :
  link_of prev_ (objs s) head = Some P ->
  link_of next_ (objs s) tail = Some N ->
  is_Some (objs s !! P) -> is_Some (objs s !! N) ->
  separateChain this head tail s
  = Ok (head, set_objs (separated head tail P N (objs s)) s).
Proof.
  intros HP HN HsP HsN.
  assert (Hsh : is_Some (objs s !! head)).
  { unfold link_of in HP. destruct (objs s !! head); [by eexists|done]. }
  assert (Hst : is_Some (objs s !! tail)).
  { unfold link_of in HN. destruct (objs s !! tail); [by eexists|done]. }
  unfold separateChain.
  rewrite (bind_ok _ _ _ _ _ (get_prev_run _ _ _ HP)).
  rewrite (bind_ok _ _ _ _ _ (get_next_run _ _ _ HN)).
  rewrite (bind_ok _ _ _ _ _ (put_next_run P N s HsP)).
  set (s1 := set_objs (alter (set_next_ N) P (objs s)) s).
  assert (HN1 : link_of next_ (objs s1) tail = Some N).
  { simpl. destruct (decide (tail = P)) as [->|Hne].
    - by apply link_of_alter_hit.
    - by rewrite link_of_alter_ne. }
  assert (HP1 : link_of prev_ (objs s1) head = Some P).
  { simpl. by rewrite link_of_alter_other. }
  rewrite (bind_ok _ _ _ _ _ (get_next_run _ _ _ HN1)).
  rewrite (bind_ok _ _ _ _ _ (get_prev_run _ _ _ HP1)).
  assert (HsN1 : is_Some (objs s1 !! N)) by (simpl; by apply is_Some_alter).
  rewrite (bind_ok _ _ _ _ _ (put_prev_run N P s1 HsN1)).
  set (s2 := set_objs (alter (set_prev_ P) N (objs s1)) s1).
  assert (Hsh2 : is_Some (objs s2 !! head))
    by (simpl; by rewrite !is_Some_alter).
  rewrite (bind_ok _ _ _ _ _ (put_prev_run head tail s2 Hsh2)).
  set (s3 := set_objs (alter (set_prev_ tail) head (objs s2)) s2).
  assert (Hst3 : is_Some (objs s3 !! tail))
    by (simpl; by rewrite !is_Some_alter).
  rewrite (bind_ok _ _ _ _ _ (put_next_run tail head s3 Hst3)).
  reflexivity.
Qed.

Lemma NoDup_reverse_iff (l : list Z) : NoDup (reverse l) <-> NoDup l.
Proof. by rewrite reverse_Permutation. Qed.

Lemma NoDup_rotate (x : Z) (r : list Z) : NoDup (x :: r) <-> NoDup (r ++ [x]).
Proof. by rewrite <- Permutation_cons_append. Qed.

(** In the cycle [this :: A ++ mid ++ B], the link of the last element of
    [mid] leads to the first element of [B], or to [this] when [B] is
    empty. *)
Lemma cyclic_exit (f : IOBuf -> ptr) (o : gmap Z IOBuf) (this : ptr)
  (A mid B : list ptr) (t : ptr) :
  cyclic f o (this :: A ++ mid ++ B) -> last mid = Some t ->
  link_of f o t = Some (List.hd this B).
Proof.
  intros Hcyc Hlast. apply last_Some in Hlast as [m' ->].
  unfold cyclic in Hcyc. simpl in Hcyc. destruct Hcyc as [_ Hcyc].
  apply links_app in Hcyc as [_ Hcyc]. apply links_app in Hcyc as [Hcyc _].
  apply links_snoc in Hcyc. tauto.
Qed.

Lemma cyclic_elem (f : IOBuf -> ptr) (o : gmap Z IOBuf) (l : list ptr)
  (x : ptr) :
  cyclic f o l -> x ∈ l -> is_Some (o !! x).
Proof. apply links_elem. Qed.

(** The chain seen backwards from [this]. *)
Lemma reverse_chain_list (this : ptr) (l1 mid l2 : list ptr) :
  reverse (this :: l1 ++ mid ++ l2)
  = (reverse l2 ++ reverse mid ++ reverse l1) ++ [this].
Proof. by rewrite reverse_cons, !reverse_app, <- !app_assoc. Qed.

Lemma payload_separated (hd tl P N : ptr) (o : gmap Z IOBuf) (x : ptr) :
  payload <$> separated hd tl P N o !! x = payload <$> o !! x.
Proof.
  unfold separated. rewrite !lookup_alter.
  repeat case_decide; subst; try done;
    repeat (rewrite <- !option_fmap_compose);
    by destruct (o !! x).
Qed.

Lemma separated_next (hd tl P N : ptr) (o : gmap Z IOBuf) :
  is_Some (o !! tl) -> is_Some (o !! P) -> P <> tl ->
  link_of next_ (separated hd tl P N o) tl = Some hd /\
  link_of next_ (separated hd tl P N o) P = Some N /\
  (forall x, x <> tl -> x <> P ->
             link_of next_ (separated hd tl P N o) x = link_of next_ o x).
Proof.
  intros Htl HP Hne. unfold separated. split_and!.
  - apply link_of_alter_hit; [done|]. by rewrite !is_Some_alter.
  - rewrite link_of_alter_ne by done.
    rewrite !(link_of_alter_other next_ (set_prev_ _)) by done.
    by apply link_of_alter_hit.
  - intros x Hx1 Hx2. rewrite link_of_alter_ne by done.
    rewrite !(link_of_alter_other next_ (set_prev_ _)) by done.
    by rewrite link_of_alter_ne.
Qed.

Lemma separated_prev (hd tl P N : ptr) (o : gmap Z IOBuf) :
  is_Some (o !! hd) -> is_Some (o !! N) -> N <> hd ->
  link_of prev_ (separated hd tl P N o) hd = Some tl /\
  link_of prev_ (separated hd tl P N o) N = Some P /\
  (forall x, x <> hd -> x <> N ->
             link_of prev_ (separated hd tl P N o) x = link_of prev_ o x).
Proof.
  intros Hhd HN Hne. unfold separated. split_and!.
  - rewrite (link_of_alter_other prev_ (set_next_ _)) by done.
    apply link_of_alter_hit; [done|]. by rewrite !is_Some_alter.
  - rewrite (link_of_alter_other prev_ (set_next_ _)) by done.
    rewrite link_of_alter_ne by done.
    apply link_of_alter_hit; [done|]. by rewrite !is_Some_alter.
  - intros x Hx1 Hx2.
    rewrite (link_of_alter_other prev_ (set_next_ _)) by done.
    rewrite !link_of_alter_ne by done.
    by rewrite (link_of_alter_other prev_ (set_next_ _)).
Qed.

(** [separateChain(hd, tl)] on the chain [this :: l1 ++ mid ++ l2], where
    [mid] runs from [hd] to [tl]: the call returns [hd], [mid] and
    [this :: l1 ++ l2] are chains afterwards, and only link fields have
    changed. *)
Lemma separateChain_detaches (s : State) (this : ptr) (l1 mid l2 : list ptr)
  (hd tl : ptr) :
  is_chain (objs s) (this :: l1 ++ mid ++ l2) ->
  head mid = Some hd -> last mid = Some tl ->
  exists s',
    separateChain this hd tl s = Ok (hd, s') /\
    is_chain (objs s') mid /\
    is_chain (objs s') (this :: l1 ++ l2) /\
    (forall x, payload <$> objs s' !! x = payload <$> objs s !! x) /\
    infos s' = infos s /\ mem s' = mem s.
Proof.
  intros (_ & Hnd & Hnull & Hn & Hp) Hhd Htl.
  set (P := List.hd this (reverse l1)).
  set (N := List.hd this l2).
  (* the backward cycle, entered at [this] *)
  rewrite reverse_chain_list in Hp.
  apply (proj2 (cyclic_rotate _ _ _ _)) in Hp.
  assert (HndR : NoDup (this :: reverse l2 ++ reverse mid ++ reverse l1)).
  { apply (proj2 (NoDup_rotate _ _)).
    rewrite <- reverse_chain_list. by apply NoDup_reverse_iff. }
  assert (HhdR : head (reverse mid) = Some tl) by by rewrite head_reverse.
  assert (HtlR : last (reverse mid) = Some hd) by by rewrite last_reverse.
  (* the four objects the assignments read and write *)
  assert (Hin_hd : hd ∈ mid).
  { apply head_Some in Hhd as [m ->]. apply list_elem_of_here. }
  assert (Hin_tl : tl ∈ mid).
  { apply last_Some in Htl as [m ->]. rewrite elem_of_app, list_elem_of_singleton.
    tauto. }
  assert (Hmid_in : forall x, x ∈ mid -> x ∈ this :: l1 ++ mid ++ l2).
  { intros x Hx. rewrite elem_of_cons, !elem_of_app. tauto. }
  assert (HN_in : N ∈ this :: l2) by apply hd_elem.
  assert (HP_in : P ∈ this :: reverse l1) by apply hd_elem.
  assert (HN_chain : N ∈ this :: l1 ++ mid ++ l2).
  { revert HN_in. rewrite !elem_of_cons, !elem_of_app. tauto. }
  assert (HP_chain : P ∈ this :: l1 ++ mid ++ l2).
  { revert HP_in. rewrite !elem_of_cons, elem_of_reverse, !elem_of_app. tauto. }
  assert (Hdisj : forall x, x ∈ mid -> x <> this /\ (x ∉ l1) /\ (x ∉ l2)).
  { intros x Hx.
    apply NoDup_cons in Hnd as [Hthis Hnd'].
    apply NoDup_app in Hnd' as (_ & H1 & Hnd').
    apply NoDup_app in Hnd' as (_ & H2 & _).
    split_and!.
    - intros ->. apply Hthis. rewrite !elem_of_app. tauto.
    - intros Hx1. apply (H1 x Hx1). rewrite elem_of_app. tauto.
    - by apply H2. }
  assert (HPne : P <> tl).
  { intros HPtl. destruct (Hdisj tl Hin_tl) as (H1 & H2 & _).
    rewrite <- HPtl in H1, H2. revert HP_in.
    rewrite elem_of_cons, elem_of_reverse. tauto. }
  assert (HNne : N <> hd).
  { intros HNhd. destruct (Hdisj hd Hin_hd) as (H1 & _ & H2).
    rewrite <- HNhd in H1, H2. revert HN_in. rewrite elem_of_cons. tauto. }
  pose proof (cyclic_exit _ _ _ _ _ _ _ Hn Htl) as Hnext_tl. fold N in Hnext_tl.
  pose proof (cyclic_exit _ _ _ _ _ _ _ Hp HtlR) as Hprev_hd. fold P in Hprev_hd.
  pose proof (cyclic_elem _ _ _ _ Hn HP_chain) as HsP.
  pose proof (cyclic_elem _ _ _ _ Hn HN_chain) as HsN.
  pose proof (cyclic_elem _ _ _ _ Hn (Hmid_in _ Hin_hd)) as Hshd.
  pose proof (cyclic_elem _ _ _ _ Hn (Hmid_in _ Hin_tl)) as Hstl.
  exists (set_objs (separated hd tl P N (objs s)) s).
  split; [by apply separateChain_run|]. simpl.
  destruct (separated_next hd tl P N (objs s) Hstl HsP HPne)
    as (Hn1 & Hn2 & Hn3).
  destruct (separated_prev hd tl P N (objs s) Hshd HsN HNne)
    as (Hp1 & Hp2 & Hp3).
  (* forward and backward cycles after the call *)
  assert (HlastP : last (this :: l1) = Some P).
  { unfold P. rewrite last_cons, <- head_reverse.
    by destruct (reverse l1). }
  assert (HheadN : head (l2 ++ [this]) = Some N).
  { unfold N. by destruct l2. }
  assert (HlastN : last (this :: reverse l2) = Some N).
  { unfold N. rewrite last_cons, last_reverse. by destruct l2. }
  assert (HheadP : head (reverse l1 ++ [this]) = Some P).
  { unfold P. by destruct (reverse l1). }
  destruct (detach_cycle next_ _ _ this l1 mid l2 hd tl P N
              Hnd Hhd Htl HlastP HheadN Hn Hn1 Hn2 Hn3) as [Hn_rest Hn_mid].
  destruct (detach_cycle prev_ _ _ this (reverse l2) (reverse mid) (reverse l1)
              tl hd N P HndR HhdR HtlR HlastN HheadP Hp Hp1 Hp2 Hp3)
    as [Hp_rest Hp_mid].
  assert (Hc_mid : is_chain (separated hd tl P N (objs s)) mid).
  { split_and!; try done.
    - intros ->. done.
    - apply NoDup_cons in Hnd as [_ Hnd]. apply NoDup_app in Hnd as (_ & _ & Hnd).
      by apply NoDup_app in Hnd as (Hnd & _).
    - intros H0. by apply Hnull, Hmid_in. }
  assert (Hc_rest : is_chain (separated hd tl P N (objs s)) (this :: l1 ++ l2)).
  { split_and!; try done.
    - apply NoDup_cons in Hnd as [Hthis Hnd]. apply NoDup_cons. split.
      + revert Hthis. rewrite !elem_of_app. tauto.
      + apply NoDup_app in Hnd as (Hnd1 & Hd1 & Hnd).
        apply NoDup_app in Hnd as (_ & _ & Hnd2).
        apply NoDup_app. split_and!; try done.
        intros x Hx Hx2. apply (Hd1 x Hx). rewrite elem_of_app. tauto.
    - revert Hnull. rewrite !not_elem_of_cons, !not_elem_of_app. tauto.
    - rewrite reverse_cons, reverse_app.
      by apply (proj1 (cyclic_rotate _ _ _ _)). }
  split_and!; try done.
  intros x. apply payload_separated.
Qed.

(** C5.  Let the chain of [this] be [this :: l1 ++ mid ++ l2] in [next_]
    order, with [mid] a non-empty run from [hd] to [tl] (possibly
    [hd = tl]).  Then [separateChain(hd, tl)] returns [hd]; afterwards
    [mid] is a chain of its own (its members in their original order),
    the chain of [this] is [this :: l1 ++ l2] (the remaining members in
    their original order), no descriptor has changed except in its links,
    and on every member of either chain [next_] and [prev_] are inverse to
    each other. *)
Theorem separateChain_spec (s : State) (this : ptr) (l1 mid l2 : list ptr)
  (hd tl : ptr) :
  is_chain (objs s) (this :: l1 ++ mid ++ l2) ->
  head mid = Some hd -> last mid = Some tl ->
  exists s',
    separateChain this hd tl s = Ok (hd, s') /\
    is_chain (objs s') mid /\
    is_chain (objs s') (this :: l1 ++ l2) /\
    (forall x, payload <$> objs s' !! x = payload <$> objs s !! x) /\
    infos s' = infos s /\ mem s' = mem s /\
    (forall x, x ∈ this :: l1 ++ mid ++ l2 ->
       exists n p,
         link_of next_ (objs s') x = Some n /\
         link_of prev_ (objs s') n = Some x /\
         link_of prev_ (objs s') x = Some p /\
         link_of next_ (objs s') p = Some x).
Proof.
  intros Hc Hhd Htl.
  destruct (separateChain_detaches s this l1 mid l2 hd tl Hc Hhd Htl)
    as (s' & Hrun & Hc_mid & Hc_rest & Hpay & Hi & Hm).
  exists s'. split_and!; try done.
  intros x Hx.
  assert (Hcase : x ∈ mid \/ x ∈ this :: l1 ++ l2).
  { revert Hx. rewrite !elem_of_cons, !elem_of_app. tauto. }
  destruct Hcase as [Hxm|Hxr].
  - destruct (is_chain_inverse _ _ _ Hc_mid Hxm) as (n & p & ? & ? & ? & ? & _).
    by exists n, p.
  - destruct (is_chain_inverse _ _ _ Hc_rest Hxr) as (n & p & ? & ? & ? & ? & _).
    by exists n, p.
Qed.

Lemma chain5_is_chain : is_chain (objs chain5_state) [16; 32; 48; 64; 80].
Proof. apply (bool_decide_unpack _). vm_compute. exact I. Qed.

Lemma separateChain_spec_witness :
  exists s',
    separateChain 16 32 64 chain5_state = Ok (32, s') /\
    is_chain (objs s') [32; 48; 64] /\
    is_chain (objs s') [16; 80].
Proof.
  destruct (separateChain_spec chain5_state 16 [] [32; 48; 64] [80] 32 64
              chain5_is_chain eq_refl eq_refl)
    as (s' & Hrun & Hmid & Hrest & _).
  exists s'. split; [exact Hrun|]. split; [exact Hmid|exact Hrest].
Defined.

(** ** Iteration *)

Lemma cend_run (s : State) : cend s = Ok (end_iterator, s).
Proof. reflexivity. Qed.

Lemma setVal_run (it : Iterator) (s : State) :
  is_Some (objs s !! pos_ it) ->
  setVal it s
  = Ok (mkIterator (pos_ it) (end_ it) (range_at (objs s) (pos_ it)), s).
Proof.
  intros [b Hb]. unfold setVal, range_at. rewrite (bind_load _ _ _ _ Hb).
  by rewrite Hb.
Qed.

Lemma cbegin_run (this : ptr) (s : State) :
  this <> nullptr -> is_Some (objs s !! this) ->
  cbegin this s = Ok (mkIterator this this (range_at (objs s) this), s).
Proof.
  intros Hnz Hb. unfold cbegin, Iterator_new.
  destruct (Z.eqb_spec this nullptr); [done|]. simpl.
  by rewrite setVal_run.
Qed.

(** One increment: the position moves along [next_]; on reaching the
    stored end sentinel both fields become null. *)
Lemma increment_run (x e n : ptr) (v : ByteRange) (s : State) :
  link_of next_ (objs s) x = Some n ->
  (n <> e -> is_Some (objs s !! n)) ->
  increment (mkIterator x e v) s
  = Ok (if decide (n = e) then end_iterator
        else mkIterator n e (range_at (objs s) n), s).
Proof.
  intros Hn Hs. unfold increment. simpl.
  rewrite (bind_ok _ _ _ _ _ (get_next_run _ _ _ Hn)).
  unfold adjustForEnd. simpl.
  destruct (Z.eqb_spec n e) as [->|Hne].
  - by rewrite decide_True.
  - rewrite decide_False by done. rewrite setVal_run; [done|]. by apply Hs.
Qed.

(** Iterating from an element of a [next_]-linked run that ends where the
    sentinel [e] follows yields the range stored in the iterator and then
    the ranges of the remaining elements. *)
Lemma iterate_links (s : State) (e : ptr) (rest : list ptr) :
  forall (x : ptr) (v : ByteRange) (fuel : nat),
    links next_ (objs s) (x :: rest) e ->
    nullptr ∉ x :: rest -> e ∉ rest ->
    (List.length (x :: rest) <= fuel)%nat ->
    iterate fuel (mkIterator x e v) end_iterator s
    = Ok (v :: (range_at (objs s) <$> rest), s).
Proof.
  induction rest as [|y rest IH]; intros x v fuel Hl Hnull He Hfuel.
  - destruct fuel as [|fuel]; [simpl in Hfuel; lia|].
    simpl in Hl. destruct Hl as [Hx _].
    apply not_elem_of_cons in Hnull as [Hx0 _].
    simpl. unfold equal. simpl.
    destruct (Z.eqb_spec x nullptr); [congruence|]. simpl.
    rewrite (bind_ok _ _ _ _ _ (increment_run x e e v s Hx ltac:(done))).
    rewrite decide_True by done.
    destruct fuel; reflexivity.
  - destruct fuel as [|fuel]; [simpl in Hfuel; lia|].
    change (links next_ (objs s) (x :: y :: rest) e) with
      (link_of next_ (objs s) x = Some y /\ links next_ (objs s) (y :: rest) e)
      in Hl.
    destruct Hl as [Hx Hl].
    apply not_elem_of_cons in Hnull as [Hx0 Hnull].
    apply not_elem_of_cons in He as [Hey He].
    assert (Hsy : is_Some (objs s !! y)).
    { apply (links_elem _ _ _ _ _ Hl), list_elem_of_here. }
    simpl iterate. unfold equal. simpl.
    destruct (Z.eqb_spec x nullptr); [congruence|]. simpl.
    rewrite (bind_ok _ _ _ _ _ (increment_run x e y v s Hx (fun _ => Hsy))).
    rewrite decide_False by congruence.
    rewrite (bind_ok _ _ _ _ _ (IH y _ fuel Hl Hnull He ltac:(simpl in *; lia))).
    reflexivity.
Qed.

(** C8.  For a chain [a :: r] of [k] elements, [begin] built from [a] is
    positioned on [a] with [a] as end sentinel, [end] has [pos] and [end]
    null, and iterating from [begin] to [end] yields exactly the [k] byte
    ranges [{data, data+length}] of the chain elements, in chain order,
    starting at [a].  Incrementing an iterator positioned on the last
    element moves [pos] to the sentinel [a], nulls both fields, and the
    result compares equal to [end]. *)
Theorem iterator_yields_chain (s : State) (a : ptr) (r : list ptr) :
  is_chain (objs s) (a :: r) ->
  exists first,
    cbegin a s = Ok (first, s) /\
    pos_ first = a /\ end_ first = a /\
    cend s = Ok (end_iterator, s) /\
    pos_ end_iterator = nullptr /\ end_ end_iterator = nullptr /\
    (forall fuel, (List.length (a :: r) <= fuel)%nat ->
       iterate fuel first end_iterator s
       = Ok (range_at (objs s) <$> (a :: r), s)) /\
    List.length (range_at (objs s) <$> (a :: r)) = List.length (a :: r) /\
    (forall x, x ∈ a :: r ->
       exists b, objs s !! x = Some b /\
                 range_at (objs s) x = mkByteRange (data b) (data b + length b)) /\
    (forall x v, last (a :: r) = Some x ->
       exists it,
         increment (mkIterator x a v) s = Ok (it, s) /\
         pos_ it = nullptr /\ end_ it = nullptr /\
         equal it end_iterator = true).
Proof.
  intros (_ & Hnd & Hnull & Hn & _).
  assert (Ha0 : a <> nullptr).
  { intros ->. apply Hnull, list_elem_of_here. }
  assert (Hsa : is_Some (objs s !! a)).
  { apply (cyclic_elem _ _ _ _ Hn), list_elem_of_here. }
  apply NoDup_cons in Hnd as [Har _].
  eexists. split; [by apply cbegin_run|]. simpl.
  split_and!; try reflexivity.
  - intros fuel Hfuel. by apply iterate_links.
  - by rewrite length_fmap.
  - intros x Hx. destruct (cyclic_elem _ _ _ _ Hn Hx) as [b Hb].
    exists b. split; [done|]. unfold range_at. by rewrite Hb.
  - intros x v Hlast.
    assert (Hx : link_of next_ (objs s) x = Some a).
    { apply last_Some in Hlast as [l' Hl']. unfold cyclic in Hn.
      rewrite Hl' in Hn. apply links_snoc in Hn as [_ Hn].
      by rewrite <- Hl' in Hn. }
    eexists. split; [by apply (increment_run x a a v s Hx)|].
    by rewrite decide_True.
Qed.

Lemma iterator_yields_chain_witness :
  exists first,
    cbegin 16 chain5_state = Ok (first, chain5_state) /\
    iterate 5 first end_iterator chain5_state
    = Ok ([mkByteRange 4112 4114; mkByteRange 4128 4130;
           mkByteRange 4144 4146; mkByteRange 4160 4162;
           mkByteRange 4176 4178], chain5_state).
Proof.
  destruct (iterator_yields_chain chain5_state 16 [32; 48; 64; 80]
              chain5_is_chain)
    as (first & Hb & _ & _ & _ & _ & _ & Hit & _).
  exists first. split; [exact Hb|].
  etransitivity; [apply (Hit 5%nat); simpl; lia|].
  reflexivity.
Defined.

(** ** gather *)

Lemma isChained_run (this : ptr) (s : State) (b : IOBuf) :
  objs s !! this = Some b ->
  isChained this s = Ok (negb (next_ b =? this), s).
Proof. intros Hb. unfold isChained. by rewrite (bind_load _ _ _ _ Hb). Qed.

Lemma load_inv (p : ptr) (s s' : State) (b : IOBuf) :
  load p s = Ok (b, s') -> s' = s /\ objs s !! p = Some b.
Proof.
  unfold load. destruct (objs s !! p); [|done]. intros Heq.
  injection Heq as -> ->. done.
Qed.

Lemma get_prev_inv (p v : ptr) (s s' : State) :
  get_prev p s = Ok (v, s') -> s' = s /\ link_of prev_ (objs s) p = Some v.
Proof.
  unfold get_prev. intros Hrun.
  apply bind_inv in Hrun as (b & s1 & Hl & Hr).
  apply load_inv in Hl as [-> Hb]. injection Hr as <- <-.
  unfold link_of. by rewrite Hb.
Qed.

Lemma get_next_inv (p v : ptr) (s s' : State) :
  get_next p s = Ok (v, s') -> s' = s /\ link_of next_ (objs s) p = Some v.
Proof.
  unfold get_next. intros Hrun.
  apply bind_inv in Hrun as (b & s1 & Hl & Hr).
  apply load_inv in Hl as [-> Hb]. injection Hr as <- <-.
  unfold link_of. by rewrite Hb.
Qed.

(** The scan stops after a non-empty run of the chain, with the sum at
    [maxLength] or more. *)
Lemma gatherScan_inv (s : State) (this : ptr) (maxLength : Z)
  (rest : list ptr) :
  forall (cur : ptr) (acc : Z) (fuel : nat) (n : Z) (e : ptr) (s' : State),
    links next_ (objs s) (cur :: rest) this ->
    gatherScan fuel maxLength this cur acc s = Ok ((n, e), s') ->
    s' = s /\
    exists pre post,
      cur :: rest = (cur :: pre) ++ post /\
      e = List.hd this post /\
      maxLength <= n.
Proof.
  induction rest as [|y rest IH]; intros cur acc fuel n e s' Hl Hrun.
  - simpl in Hl. destruct Hl as [Hcur _].
    assert (Hstep : exists b, objs s !! cur = Some b /\ next_ b = this).
    { unfold link_of in Hcur. destruct (objs s !! cur) as [b|]; [|done].
      exists b. split; [done|]. simpl in Hcur. congruence. }
    destruct Hstep as (b & Hb & Hnext).
    destruct fuel; simpl in Hrun;
      rewrite (bind_load _ _ _ _ Hb) in Hrun;
      (destruct (Z.leb_spec maxLength (acc + length_ b)) as [Hle|Hgt];
       [|by rewrite Hnext, Z.eqb_refl in Hrun]);
      injection Hrun as <- <- <-;
      (split; [done|]); exists [], []; by rewrite Hnext.
  - change (links next_ (objs s) (cur :: y :: rest) this) with
      (link_of next_ (objs s) cur = Some y /\
       links next_ (objs s) (y :: rest) this) in Hl.
    destruct Hl as [Hcur Hl].
    assert (Hstep : exists b, objs s !! cur = Some b /\ next_ b = y).
    { unfold link_of in Hcur. destruct (objs s !! cur) as [b|]; [|done].
      exists b. split; [done|]. simpl in Hcur. congruence. }
    destruct Hstep as (b & Hb & Hnext).
    destruct fuel as [|fuel]; simpl in Hrun;
      rewrite (bind_load _ _ _ _ Hb) in Hrun;
      (destruct (Z.leb_spec maxLength (acc + length_ b)) as [Hle|Hgt];
       [injection Hrun as <- <- <-; (split; [done|]);
        exists [], (y :: rest); by rewrite Hnext|]);
      rewrite Hnext in Hrun;
      (destruct (Z.eqb_spec y this); [done|]); [done|].
    destruct (IH y _ fuel n e s' Hl Hrun) as (-> & pre & post & Heq & He & Hstop).
    split; [done|]. exists (y :: pre), post.
    split_and!; try done. simpl. by rewrite Heq.
Qed.

(** The walk from [cur] to the element before [e] collects exactly the
    run of the chain that [e] follows. *)
Lemma segments_inv (s : State) (e : ptr) (pre : list ptr) :
  forall (cur : ptr) (fuel : nat) (segs : list ptr) (s' : State),
    links next_ (objs s) (cur :: pre) e -> e ∉ pre ->
    segments fuel cur e s = Ok (segs, s') ->
    s' = s /\ segs = cur :: pre.
Proof.
  induction pre as [|y pre IH]; intros cur fuel segs s' Hl He Hrun.
  - simpl in Hl. destruct Hl as [Hcur _].
    destruct fuel; simpl in Hrun;
      rewrite (bind_ok _ _ _ _ _ (get_next_run _ _ _ Hcur)) in Hrun;
      rewrite Z.eqb_refl in Hrun; by injection Hrun as <- <-.
  - change (links next_ (objs s) (cur :: y :: pre) e) with
      (link_of next_ (objs s) cur = Some y /\
       links next_ (objs s) (y :: pre) e) in Hl.
    destruct Hl as [Hcur Hl].
    apply not_elem_of_cons in He as [Hy He].
    destruct fuel as [|fuel]; simpl in Hrun;
      rewrite (bind_ok _ _ _ _ _ (get_next_run _ _ _ Hcur)) in Hrun;
      (destruct (Z.eqb_spec y e); [congruence|]); [done|].
    apply bind_inv in Hrun as (rest & s1 & Hrec & Hret).
    destruct (IH y fuel rest s1 Hl He Hrec) as [-> ->].
    by injection Hret as <- <-.
Qed.

Lemma copySegments_objs (segs : list ptr) :
  forall (dst : ptr) (s s' : State),
    copySegments segs dst s = Ok (tt, s') -> objs s' = objs s.
Proof.
  induction segs as [|p segs IH]; intros dst s s' Hrun; simpl in Hrun.
  - by injection Hrun as <-.
  - apply bind_inv in Hrun as (b & s1 & Hload & Hrun).
    apply load_inv in Hload as [-> _].
    apply bind_inv in Hrun as ([] & s2 & Hw & Hrun).
    injection Hw as <-. by apply IH in Hrun.
Qed.

Lemma decrementRefcount_objs (p : ptr) (s s' : State) :
  decrementRefcount p s = Ok (tt, s') -> objs s' = objs s.
Proof.
  unfold decrementRefcount. intros Hrun.
  apply bind_inv in Hrun as (b & s1 & Hload & Hrun).
  apply load_inv in Hload as [-> _].
  destruct (negb (Z.land (flags_ b) kFlagUserOwned =? 0)).
  - by injection Hrun as <-.
  - apply bind_inv in Hrun as (i & s2 & Hi & Hrun).
    unfold load_info in Hi. destruct (infos s !! sharedInfo_ b); [|done].
    injection Hi as <- <-. by injection Hrun as <-.
Qed.

Lemma destroyAll_objs (l : list ptr) :
  forall (s s' : State) (x : ptr),
    destroyAll l s = Ok (tt, s') -> x ∉ l -> objs s' !! x = objs s !! x.
Proof.
  induction l as [|p l IH]; intros s s' x Hrun Hx; simpl in Hrun.
  - by injection Hrun as <-.
  - apply not_elem_of_cons in Hx as [Hxp Hx].
    apply bind_inv in Hrun as ([] & s1 & Hd & Hrun).
    apply decrementRefcount_objs in Hd.
    apply bind_inv in Hrun as ([] & s2 & Hdel & Hrun).
    injection Hdel as <-.
    rewrite (IH _ _ x Hrun Hx). simpl. rewrite Hd.
    by apply lookup_delete_ne.
Qed.

Lemma link_of_insert_same (f : IOBuf -> ptr) (o : gmap Z IOBuf) (x y : ptr)
  (b b' : IOBuf) :
  o !! x = Some b -> f b' = f b ->
  link_of f (<[x := b']> o) y = link_of f o y.
Proof.
  intros Hb Hf. unfold link_of. rewrite lookup_insert.
  destruct (decide (x = y)) as [<-|]; [|done].
  rewrite Hb. simpl. by rewrite Hf.
Qed.

(** Rewriting the window of a member leaves the chain as it is. *)
Lemma is_chain_insert (o : gmap Z IOBuf) (l : list ptr) (x : ptr)
  (b b' : IOBuf) :
  o !! x = Some b -> next_ b' = next_ b -> prev_ b' = prev_ b ->
  is_chain o l -> is_chain (<[x := b']> o) l.
Proof.
  intros Hb Hn Hp (Hne & Hnd & Hnull & Hcn & Hcp). split_and!; try done.
  - apply (links_frame next_ o); [|done].
    intros y _. by apply (link_of_insert_same next_ o x y b b').
  - apply (links_frame prev_ o); [|done].
    intros y _. by apply (link_of_insert_same prev_ o x y b b').
Qed.

Lemma chain_prefix_links (o : gmap Z IOBuf) (this : ptr) (pre post : list ptr) :
  is_chain o (this :: pre ++ post) ->
  links next_ o (this :: pre) (List.hd this post) /\
  List.hd this post ∉ pre.
Proof.
  intros (_ & Hnd & _ & Hn & _). split.
  - unfold cyclic in Hn. simpl List.hd in Hn.
    change (this :: pre ++ post) with ((this :: pre) ++ post) in Hn.
    apply links_app in Hn. tauto.
  - apply NoDup_cons in Hnd as [Hthis Hnd].
    apply NoDup_app in Hnd as (_ & Hd & _).
    destruct post as [|y post]; simpl.
    + revert Hthis. rewrite elem_of_app. tauto.
    + intros Hin. apply (Hd y Hin), list_elem_of_here.
Qed.

Lemma chain_prev_of_exit (o : gmap Z IOBuf) (this x : ptr)
  (pre post : list ptr) :
  is_chain o (this :: pre ++ post) -> last (this :: pre) = Some x ->
  link_of prev_ o (List.hd this post) = Some x.
Proof.
  intros Hc Hlast.
  destruct (chain_prefix_links _ _ _ _ Hc) as [Hl _].
  apply last_Some in Hlast as [l' Hl'].
  assert (Hx : x ∈ this :: pre ++ post).
  { change (this :: pre ++ post) with ((this :: pre) ++ post).
    rewrite Hl', !elem_of_app, list_elem_of_singleton. tauto. }
  destruct (is_chain_inverse _ _ _ Hc Hx) as (n & _ & Hn & Hp & _).
  rewrite Hl' in Hl. apply links_snoc in Hl as [_ Hl]. congruence.
Qed.

Lemma chain_head_next (o : gmap Z IOBuf) (this : ptr) (r : list ptr) :
  is_chain o (this :: r) ->
  link_of next_ o this = Some (List.hd this r) /\
  (List.hd this r = this <-> r = []).
Proof.
  intros (_ & Hnd & _ & Hn & _). unfold cyclic in Hn. simpl in Hn.
  split; [tauto|]. apply NoDup_cons in Hnd as [Hthis _].
  destruct r as [|y r]; simpl; [done|].
  split; [|done]. intros ->. exfalso. apply Hthis, list_elem_of_here.
Qed.

Lemma call_inv (this : ptr) (f : IOBuf -> IOBuf) (s s' : State) :
  call this f s = Ok (tt, s') ->
  exists b, objs s !! this = Some b /\
            s' = set_objs (<[this := f b]> (objs s)) s.
Proof.
  unfold call. intros Hrun.
  apply bind_inv in Hrun as (b & s1 & Hload & Hrun).
  apply load_inv in Hload as [-> Hb]. exists b. split; [done|].
  unfold store in Hrun. by injection Hrun as <-.
Qed.

Section GatherProps.

Context `{Allocator}.

Lemma allocExtBuffer_objs (c : Z) (s s' : State) (r : ptr * ptr * Z) :
  allocExtBuffer c s = Ok (r, s') -> objs s' = objs s.
Proof.
  unfold allocExtBuffer.
  destruct (brk s + goodCapacity c <=? heap_end s); [|done].
  by intros [= <- <-].
Qed.

(** After a run of [coalesceAndReallocate] over the elements [this :: pre]
    of the chain [this :: pre ++ post], [this] has the new length and its
    chain is [this :: post]. *)
Lemma coalesceAndReallocate_post (s s' : State) (this : ptr)
  (pre post : list ptr) (newHeadroom newLength newTailroom : Z) :
  is_chain (objs s) (this :: pre ++ post) ->
  coalesceAndReallocate newHeadroom newLength (List.hd this post)
                        newTailroom this s = Ok (tt, s') ->
  exists b',
    objs s' !! this = Some b' /\
    length_ b' = newLength /\
    next_ b' = List.hd this post.
Proof.
  intros Hc Hrun. unfold coalesceAndReallocate in Hrun.
  destruct (uint32_max <? newHeadroom + newLength + newTailroom); [done|].
  apply bind_inv in Hrun as (fuel & s0 & Hfuel & Hrun).
  injection Hfuel as <- <-.
  apply bind_inv in Hrun as (segs & s0 & Hsegs & Hrun).
  destruct (chain_prefix_links _ _ _ _ Hc) as [Hl He].
  destruct (segments_inv s _ pre this _ segs s0 Hl He Hsegs) as [-> ->].
  apply bind_inv in Hrun as ([[newBuf newInfo] cap] & s1 & Halloc & Hrun).
  apply allocExtBuffer_objs in Halloc.
  apply bind_inv in Hrun as ([] & s2 & Hcopy & Hrun).
  apply copySegments_objs in Hcopy.
  apply bind_inv in Hrun as ([] & s3 & Hcall & Hrun).
  apply call_inv in Hcall as (b & Hb & ->).
  rewrite Hcopy, Halloc in Hb.
  set (b3 := mkIOBuf (next_ b) (prev_ b) (newBuf + newHeadroom) newBuf
                     newLength cap 0 kExtAllocated newInfo) in *.
  assert (Hc3 : is_chain (<[this := b3]> (objs s2)) (this :: pre ++ post)).
  { rewrite Hcopy, Halloc. by apply (is_chain_insert _ _ _ b). }
  simpl List.tl in Hrun.
  destruct pre as [|first pre2].
  - injection Hrun as <-. simpl.
    rewrite lookup_insert_eq. eexists. split; [done|]. split; [done|].
    simpl. destruct (chain_head_next _ _ _ Hc) as [Hnext _].
    unfold link_of in Hnext. rewrite Hb in Hnext. simpl in Hnext.
    congruence.
  - apply bind_inv in Hrun as (lst & s4 & Hprev & Hrun).
    apply get_prev_inv in Hprev as [-> Hprev]. simpl in Hprev.
    destruct (last (first :: pre2)) as [tl|] eqn:Htl; cycle 1.
    { by apply last_None in Htl. }
    assert (Hlast : last (this :: first :: pre2) = Some tl)
      by by rewrite last_cons, Htl.
    rewrite (chain_prev_of_exit _ _ _ _ _ Hc3 Hlast) in Hprev.
    injection Hprev as <-.
    set (s3 := set_objs (<[this := b3]> (objs s2)) s2) in *.
    destruct (separateChain_detaches s3 this [] (first :: pre2) post first tl
                Hc3 eq_refl Htl)
      as (s4 & Hsep & Hc_mid & Hc_rest & Hpay & _).
    apply bind_inv in Hrun as (r & s4' & Hsep' & Hrun).
    rewrite Hsep in Hsep'. injection Hsep' as <- <-.
    assert (Hnot : this ∉ first :: pre2).
    { destruct Hc as (_ & Hnd & _). apply NoDup_cons in Hnd as [Hthis _].
      revert Hthis. rewrite elem_of_app. tauto. }
    rewrite (destroyAll_objs _ _ _ this Hrun Hnot).
    specialize (Hpay this). simpl in Hpay. rewrite lookup_insert_eq in Hpay.
    destruct (chain_head_next _ _ _ Hc_rest) as [Hnext _].
    unfold link_of in Hnext.
    destruct (objs s4 !! this) as [b4|]; [|done].
    exists b4. split; [done|]. simpl in Hpay, Hnext.
    injection Hpay as _ _ Hlen _. split; [done|]. congruence.
Qed.

Lemma coalesceSlow_post (s s' : State) (this : ptr) (r : list ptr)
  (maxLength : Z) :
  is_chain (objs s) (this :: r) ->
  coalesceSlow maxLength this s = Ok (tt, s') ->
  exists b', objs s' !! this = Some b' /\ maxLength <= length_ b'.
Proof.
  intros Hc Hrun. unfold coalesceSlow in Hrun.
  apply bind_inv in Hrun as (fuel & s0 & Hfuel & Hrun).
  injection Hfuel as <- <-.
  apply bind_inv in Hrun as ([newLength e] & s0 & Hscan & Hrun).
  assert (Hl : links next_ (objs s) (this :: r) this).
  { by destruct Hc as (_ & _ & _ & Hn & _). }
  destruct (gatherScan_inv s this maxLength r this 0 _ _ _ _ Hl Hscan)
    as (-> & pre & post & Heq & -> & Hstop).
  simpl in Heq. injection Heq as ->.
  unfold coalesceAndReallocate2 in Hrun.
  apply bind_inv in Hrun as (b & s0 & Hload & Hrun).
  apply load_inv in Hload as [-> Hb].
  apply bind_inv in Hrun as (ep & s0 & Hprev & Hrun).
  apply get_prev_inv in Hprev as [-> _].
  apply bind_inv in Hrun as (eb & s0 & Hload & Hrun).
  apply load_inv in Hload as [-> _].
  destruct (coalesceAndReallocate_post _ _ _ _ _ _ _ _ Hc Hrun)
    as (b' & Hb' & Hlen & Hnext).
  exists b'. split; [done|]. lia.
Qed.

(** C6.  On a chain headed by [this]: if [gather(maxLength)] returns, then
    afterwards the length of [this] is at least [maxLength] or [this] is
    no longer chained; and when [this] is not chained, or its length is
    already at least [maxLength], [gather] returns with the store exactly
    as it was. *)
Theorem gather_spec (s : State) (this : ptr) (r : list ptr) (maxLength : Z) :
  is_chain (objs s) (this :: r) ->
  (forall s', gather maxLength this s = Ok (tt, s') ->
     exists b', objs s' !! this = Some b' /\
                (maxLength <= length b' \/ isChained this s' = Ok (false, s'))) /\
  (forall b, objs s !! this = Some b ->
     isChained this s = Ok (false, s) \/ maxLength <= length b ->
     gather maxLength this s = Ok (tt, s)).
Proof.
  intros Hc.
  destruct (cyclic_elem next_ (objs s) (this :: r) this) as [b Hb].
  { by destruct Hc as (_ & _ & _ & Hn & _). }
  { apply list_elem_of_here. }
  assert (Hgather : gather maxLength this s
                    = if negb (negb (next_ b =? this))
                         || (maxLength <=? length_ b)
                      then Ok (tt, s) else coalesceSlow maxLength this s).
  { unfold gather. rewrite (bind_ok _ _ _ _ _ (isChained_run _ _ _ Hb)).
    rewrite (bind_load _ _ _ _ Hb).
    by destruct (negb (negb (next_ b =? this)) || (maxLength <=? length_ b)). }
  split.
  - intros s' Hrun. rewrite Hgather in Hrun.
    destruct (Z.eqb_spec (next_ b) this) as [Hsingle|Hchained]; simpl in Hrun.
    { injection Hrun as <-. exists b. split; [done|]. right.
      rewrite (isChained_run _ _ _ Hb).
      by destruct (Z.eqb_spec (next_ b) this). }
    destruct (Z.leb_spec maxLength (length_ b)) as [Hle|Hlt].
    { injection Hrun as <-. exists b. split; [done|]. by left. }
    destruct (coalesceSlow_post _ _ _ _ _ Hc Hrun) as (b' & Hb' & Hpost).
    exists b'. split; [done|]. by left.
  - intros b0 Hb0 Hfast. rewrite Hb in Hb0. injection Hb0 as <-.
    rewrite Hgather. destruct Hfast as [Hnot|Hle].
    + rewrite (isChained_run _ _ _ Hb) in Hnot. injection Hnot as Hnot.
      by rewrite Hnot.
    + unfold length in Hle.
      destruct (Z.leb_spec maxLength (length_ b)); [|lia].
      by rewrite orb_true_r.
Qed.

End GatherProps.

Lemma gather_spec_witness :
  exists s' b',
    gather (H := exact_allocator) 3 16 chain5_state = Ok (tt, s') /\
    objs s' !! 16 = Some b' /\
    3 <= length b' /\
    is_chain (objs s') [16; 48; 64; 80].
Proof.
  destruct (gather_spec (H := exact_allocator) chain5_state 16
              [32; 48; 64; 80] 3 chain5_is_chain) as [Hpost _].
  exists gathered_state.
  assert (Hrun : gather (H := exact_allocator) 3 16 chain5_state
                 = Ok (tt, gathered_state)).
  { vm_compute. reflexivity. }
  destruct (Hpost _ Hrun) as (b' & Hb' & Hlen).
  exists b'. split; [exact Hrun|]. split; [exact Hb'|]. split.
  - destruct Hlen as [Hlen|Hch]; [exact Hlen|].
    vm_compute in Hch. discriminate.
  - apply (bool_decide_unpack _). vm_compute. exact I.
Defined.

(** * Further properties of the header *)

(** ** Reslice operations: accounting, mirror images and round trips *)

Lemma set_data_same (b : IOBuf) (v w : Z) :
  v = data_ b -> set_data_ v (set_data_ w b) = b.
Proof. intros ->. by destruct b. Qed.

Lemma bytes_at_app (m : memory) (a n1 n2 : Z) :
  0 <= n1 -> 0 <= n2 ->
  bytes_at m a (n1 + n2) = bytes_at m a n1 ++ bytes_at m (a + n1) n2.
Proof.
  intros H1 H2. unfold bytes_at. by rewrite seqZ_app, fmap_app.
Qed.

(** X1.  The three regions of the arena add up to its capacity. *)
Theorem room_accounting (b : IOBuf) :
  buf_inv b -> headroom b + length b + tailroom b = capacity b.
Proof.
  intros Hb. rewrite headroom_exact, tailroom_exact by done.
  unfold length, capacity. lia.
Qed.

Lemma room_accounting_witness :
  headroom sample_buf + length sample_buf + tailroom sample_buf = 64.
Proof. exact (room_accounting sample_buf sample_buf_inv). Defined.

(** X2.  [retreat(n)] with [n <= headroom] is the mirror image of [advance]:
    the window moves back by [n] with its bytes, the length stays, the
    headroom shrinks and the tailroom grows by exactly [n], and the
    invariant is kept. *)
Theorem retreat_moves_window (n : Z) (b : IOBuf) (m : memory) :
  buf_inv b -> is_uint32 n -> n <= headroom b ->
  let b' := fst (retreat n b m) in
  let m' := snd (retreat n b m) in
  data b' = data b - n /\
  length b' = length b /\
  headroom b' = headroom b - n /\
  tailroom b' = tailroom b + n /\
  bytes_at m' (data b') (length b') = bytes_at m (data b) (length b) /\
  (forall a, ~ (data b - n <= a < data b - n + length b) -> m' a = m a) /\
  buf_inv b'.
Proof.
  intros Hb Hn Hle b' m'.
  assert (Hb' : buf_inv b') by (apply retreat_inv; [done|apply Hn|done]).
  split_and!; try done.
  - rewrite (headroom_exact b'), (headroom_exact b) by done.
    subst b'. simpl. lia.
  - rewrite (tailroom_exact b'), (tailroom_exact b) by done.
    subst b'. simpl. lia.
  - apply bytes_at_ext. intros i Hi. subst m' b'.
    unfold retreat, length, data in *. simpl.
    destruct (Z.ltb_spec 0 (length_ b)); [|lia].
    by apply memmove_dst.
  - intros a Ha. subst m'. unfold retreat, length, data in *. simpl.
    destruct (Z.ltb_spec 0 (length_ b)); [|done].
    by apply memmove_other.
Qed.

Lemma retreat_moves_window_witness :
  bytes_at (snd (retreat 8 sample_buf sample_mem)) 4096 5
  = [Byte.x68; Byte.x65; Byte.x6c; Byte.x6c; Byte.x6f]
  /\ tailroom (fst (retreat 8 sample_buf sample_mem)) = 59.
Proof.
  assert (Hn : is_uint32 8) by (unfold is_uint32, uint32_max; lia).
  assert (Hle : 8 <= headroom sample_buf) by (vm_compute; discriminate).
  destruct (retreat_moves_window 8 sample_buf sample_mem
              sample_buf_inv Hn Hle)
    as (_ & _ & _ & Ht & Hbytes & _).
  split.
  - etransitivity; [exact Hbytes|]. reflexivity.
  - etransitivity; [exact Ht|]. reflexivity.
Defined.

(** X3.  [advance(n)] followed by [retreat(n)] is allowed (the headroom is then
    at least [n]), gives back the descriptor as it was, and the window
    holds the same bytes as at the start. *)
Theorem advance_retreat_roundtrip (n : Z) (b : IOBuf) (m : memory) :
  buf_inv b -> is_uint32 n -> n <= tailroom b ->
  let b1 := fst (advance n b m) in
  let m1 := snd (advance n b m) in
  n <= headroom b1 /\
  fst (retreat n b1 m1) = b /\
  bytes_at (snd (retreat n b1 m1)) (data b) (length b)
  = bytes_at m (data b) (length b).
Proof.
  intros Hb Hn Hle b1 m1.
  assert (Hb1 : buf_inv b1) by (apply advance_inv; [done|apply Hn|done]).
  assert (Hhr : n <= headroom b1).
  { rewrite (headroom_exact b1) by done. subst b1. simpl.
    destruct Hb. lia. }
  split; [done|]. split.
  - subst b1. unfold retreat, advance. simpl.
    apply set_data_same. simpl. lia.
  - apply bytes_at_ext. intros i Hi. subst m1 b1.
    unfold retreat, advance, length, data in *. simpl.
    destruct (Z.ltb_spec 0 (length_ b)); [|lia].
    replace (data_ b + i) with (data_ b + n - n + i) at 1 by lia.
    rewrite memmove_dst by lia. by apply memmove_dst.
Qed.

Lemma advance_retreat_roundtrip_witness :
  fst (retreat 3 (fst (advance 3 sample_buf sample_mem))
               (snd (advance 3 sample_buf sample_mem))) = sample_buf.
Proof.
  assert (Hn : is_uint32 3) by (unfold is_uint32, uint32_max; lia).
  assert (Hle : 3 <= tailroom sample_buf) by (vm_compute; discriminate).
  exact (proj1 (proj2 (advance_retreat_roundtrip 3 sample_buf sample_mem
                         sample_buf_inv Hn Hle))).
Defined.

(** X4.  [prepend] and [trimStart] undo each other: [prepend(n)] within the
    headroom followed by [trimStart(n)], and [trimStart(n)] within the
    length followed by [prepend(n)], both give back the descriptor. *)
Theorem prepend_trimStart_inverse (n : Z) (b : IOBuf) :
  buf_inv b -> 0 <= n ->
  (n <= headroom b ->
   n <= length (prepend n b) /\ trimStart n (prepend n b) = b) /\
  (n <= length b ->
   n <= headroom (trimStart n b) /\ prepend n (trimStart n b) = b).
Proof.
  intros Hb Hn. split; intros Hle.
  - pose proof (prepend_inv n b Hb Hn Hle) as Hb'.
    rewrite headroom_exact in Hle by done.
    destruct Hb as [Hl Hc Hh Hw Ht].
    assert (Hu : is_uint32 (length_ b + n)) by (unfold is_uint32 in *; lia).
    unfold trimStart, prepend, length. simpl.
    rewrite (wrap32_small _ Hu). split; [lia|].
    rewrite wrap32_small by (unfold is_uint32 in *; lia).
    destruct b; unfold set_length_, set_data_; simpl in *. f_equal; lia.
  - pose proof (trimStart_inv n b Hb Hn Hle) as Hb'.
    rewrite (headroom_exact _ Hb').
    destruct Hb as [Hl Hc Hh Hw Ht]. unfold length in Hle.
    assert (Hu : is_uint32 (length_ b - n)) by (unfold is_uint32 in *; lia).
    unfold trimStart, prepend. simpl.
    rewrite (wrap32_small _ Hu). split; [lia|].
    rewrite wrap32_small by (unfold is_uint32 in *; lia).
    destruct b; unfold set_length_, set_data_; simpl in *. f_equal; lia.
Qed.

Lemma prepend_trimStart_inverse_witness :
  trimStart 4 (prepend 4 sample_buf) = sample_buf /\
  prepend 2 (trimStart 2 sample_buf) = sample_buf.
Proof.
  destruct (prepend_trimStart_inverse 4 sample_buf sample_buf_inv
              ltac:(lia)) as [H1 _].
  destruct (prepend_trimStart_inverse 2 sample_buf sample_buf_inv
              ltac:(lia)) as [_ H2].
  split.
  - apply H1. vm_compute. discriminate.
  - apply H2. vm_compute. discriminate.
Defined.

(** X5.  [append] and [trimEnd] undo each other in the same way. *)
Theorem append_trimEnd_inverse (n : Z) (b : IOBuf) :
  buf_inv b -> 0 <= n ->
  (n <= tailroom b ->
   n <= length (append n b) /\ trimEnd n (append n b) = b) /\
  (n <= length b ->
   n <= tailroom (trimEnd n b) /\ append n (trimEnd n b) = b).
Proof.
  intros Hb Hn. split; intros Hle.
  - rewrite tailroom_exact in Hle by done.
    destruct Hb as [Hl Hc Hh Hw Ht].
    assert (Hu : is_uint32 (length_ b + n)) by (unfold is_uint32 in *; lia).
    unfold trimEnd, append, length. simpl.
    rewrite (wrap32_small _ Hu). split; [lia|].
    rewrite wrap32_small by (unfold is_uint32 in *; lia).
    destruct b; unfold set_length_, set_data_; simpl in *. f_equal; lia.
  - pose proof (trimEnd_inv n b Hb Hn Hle) as Hb'.
    rewrite (tailroom_exact _ Hb').
    destruct Hb as [Hl Hc Hh Hw Ht]. unfold length in Hle.
    assert (Hu : is_uint32 (length_ b - n)) by (unfold is_uint32 in *; lia).
    unfold trimEnd, append. simpl.
    rewrite (wrap32_small _ Hu). split; [lia|].
    rewrite wrap32_small by (unfold is_uint32 in *; lia).
    destruct b; unfold set_length_, set_data_; simpl in *. f_equal; lia.
Qed.

Lemma append_trimEnd_inverse_witness :
  trimEnd 7 (append 7 sample_buf) = sample_buf /\
  append 5 (trimEnd 5 sample_buf) = sample_buf.
Proof.
  destruct (append_trimEnd_inverse 7 sample_buf sample_buf_inv
              ltac:(lia)) as [H1 _].
  destruct (append_trimEnd_inverse 5 sample_buf sample_buf_inv
              ltac:(lia)) as [_ H2].
  split.
  - apply H1. vm_compute. discriminate.
  - apply H2. vm_compute. discriminate.
Defined.

(** X6.  The postcondition written above [clear()]: afterwards the headroom and
    the length are 0 and the tailroom is the whole capacity; the arena
    ([buf], capacity) is the same. *)
Theorem clear_postcondition (b : IOBuf) :
  is_uint32 (capacity_ b) ->
  headroom (clear b) = 0 /\ length (clear b) = 0 /\
  tailroom (clear b) = capacity b /\
  buffer (clear b) = buffer b /\ capacity (clear b) = capacity b.
Proof.
  intros Hc. unfold headroom, tailroom, length, capacity, buffer, bufferEnd,
    tail, clear, writableBuffer. simpl.
  rewrite Z.sub_diag. split_and!; try reflexivity.
  replace (buf_ b + capacity_ b - (buf_ b + 0)) with (capacity_ b) by lia.
  by apply wrap32_small.
Qed.

Lemma clear_postcondition_witness :
  headroom (clear sample_buf) = 0 /\ tailroom (clear sample_buf) = 64.
Proof.
  assert (Hc : is_uint32 (capacity_ sample_buf))
    by (unfold is_uint32, uint32_max; simpl; lia).
  destruct (clear_postcondition sample_buf Hc) as (Hh & _ & Ht & _).
  split; [exact Hh|exact Ht].
Defined.

(** X7.  Trimming drops bytes and keeps the rest where it is: after
    [trimStart(n)] the window holds the old window without its first [n]
    bytes, after [trimEnd(n)] the old window without its last [n] bytes. *)
Theorem trim_keeps_rest (n : Z) (b : IOBuf) (m : memory) :
  buf_inv b -> 0 <= n -> n <= length b ->
  bytes_at m (data (trimStart n b)) (length (trimStart n b))
  = drop (Z.to_nat n) (bytes_at m (data b) (length b)) /\
  bytes_at m (data (trimEnd n b)) (length (trimEnd n b))
  = take (Z.to_nat (length b - n)) (bytes_at m (data b) (length b)).
Proof.
  intros [Hl Hc Hh Hw Ht] Hn Hle. unfold length in *.
  assert (Hu : is_uint32 (length_ b - n)) by (unfold is_uint32 in *; lia).
  unfold trimStart, trimEnd, data. simpl. rewrite (wrap32_small _ Hu).
  assert (H1 : bytes_at m (data_ b) (length_ b)
               = bytes_at m (data_ b) n
                 ++ bytes_at m (data_ b + n) (length_ b - n)).
  { rewrite <- bytes_at_app by lia. f_equal. lia. }
  assert (H2 : bytes_at m (data_ b) (length_ b)
               = bytes_at m (data_ b) (length_ b - n)
                 ++ bytes_at m (data_ b + (length_ b - n)) n).
  { rewrite <- bytes_at_app by lia. f_equal. lia. }
  split.
  - rewrite H1. rewrite drop_app_length'; [done|]. by rewrite bytes_at_length.
  - rewrite H2. rewrite take_app_length'; [done|]. by rewrite bytes_at_length.
Qed.

Lemma trim_keeps_rest_witness :
  bytes_at sample_mem (data (trimStart 2 sample_buf))
           (length (trimStart 2 sample_buf))
  = [Byte.x6c; Byte.x6c; Byte.x6f].
Proof.
  destruct (trim_keeps_rest 2 sample_buf sample_mem sample_buf_inv
              ltac:(lia) ltac:(vm_compute; discriminate)) as [H1 _].
  etransitivity; [exact H1|]. reflexivity.
Defined.

(** X8.  Growing the window leaves the old bytes where they are: after
    [prepend(n)] the window is the [n] bytes in front of the old window
    followed by the old window, after [append(n)] it is the old window
    followed by the [n] bytes behind it. *)
Theorem grow_keeps_window (n : Z) (b : IOBuf) (m : memory) :
  buf_inv b -> 0 <= n ->
  (n <= headroom b ->
   bytes_at m (data (prepend n b)) (length (prepend n b))
   = bytes_at m (data b - n) n ++ bytes_at m (data b) (length b)) /\
  (n <= tailroom b ->
   bytes_at m (data (append n b)) (length (append n b))
   = bytes_at m (data b) (length b) ++ bytes_at m (tail b) n).
Proof.
  intros Hb Hn. split; intros Hle.
  - rewrite headroom_exact in Hle by done. destruct Hb as [Hl Hc Hh Hw Ht].
    assert (Hu : is_uint32 (length_ b + n)) by (unfold is_uint32 in *; lia).
    unfold prepend, data, length. simpl. rewrite (wrap32_small _ Hu).
    replace (length_ b + n) with (n + length_ b) by lia.
    rewrite bytes_at_app by (unfold is_uint32 in *; lia).
    do 2 f_equal. lia.
  - rewrite tailroom_exact in Hle by done. destruct Hb as [Hl Hc Hh Hw Ht].
    assert (Hu : is_uint32 (length_ b + n)) by (unfold is_uint32 in *; lia).
    unfold append, data, length, tail. simpl. rewrite (wrap32_small _ Hu).
    by rewrite bytes_at_app by (unfold is_uint32 in *; lia).
Qed.

Lemma grow_keeps_window_witness :
  bytes_at sample_mem (data (append 2 sample_buf))
           (length (append 2 sample_buf))
  = [Byte.x68; Byte.x65; Byte.x6c; Byte.x6c; Byte.x6f; Byte.x00; Byte.x00].
Proof.
  destruct (grow_keeps_window 2 sample_buf sample_mem sample_buf_inv
              ltac:(lia)) as [_ H2].
  etransitivity; [apply H2; vm_compute; discriminate|]. reflexivity.
Defined.

(** ** reserve on an empty buffer *)

Lemma room_accounting_aux (b : IOBuf) :
  buf_inv b -> headroom b + length_ b + tailroom b = capacity_ b.
Proof.
  intros Hb. rewrite headroom_exact, tailroom_exact by done. lia.
Qed.

(** X10.  When the window is empty, the asks are not met yet, and their sum
    neither wraps nor exceeds the capacity, [reserve] re-seats [data] at
    [buf + minHeadroom] without calling [reserveSlow] and without touching
    bytes or reference counts; the invariant holds again, the headroom is
    exactly [minHeadroom], the tailroom at least [minTailroom], and any
    later [reserve] with asks that are not larger changes nothing. *)
Theorem reserve_empty_reseats (reserveSlow : Z -> Z -> ptr -> M unit)
  (h t : Z) (this : ptr) (s : State) (b : IOBuf) :
  objs s !! this = Some b -> buf_inv b ->
  0 <= h -> 0 <= t -> h + t <= uint32_max ->
  ~ (h <= headroom b /\ t <= tailroom b) ->
  length b = 0 -> h + t <= capacity b ->
  exists s1 b1,
    reserve reserveSlow h t this s = Ok (tt, s1) /\
    objs s1 !! this = Some b1 /\
    mem s1 = mem s /\ infos s1 = infos s /\
    buf_inv b1 /\ headroom b1 = h /\ t <= tailroom b1 /\
    length b1 = 0 /\ buffer b1 = buffer b /\ capacity b1 = capacity b /\
    (forall h' t', h' <= h -> t' <= t ->
                   reserve reserveSlow h' t' this s1 = Ok (tt, s1)).
Proof.
  intros Hb Hinv Hh Ht Hsum Hnot Hlen Hcap.
  assert (Hroom : h + t <= headroom b + tailroom b).
  { pose proof (room_accounting_aux b Hinv). unfold length, capacity in *. lia. }
  destruct (reserve_reseat reserveSlow h t this s b Hb Hinv Hh Ht Hsum Hnot
              Hlen Hroom) as (Hrun & Hinv' & Hh' & Ht').
  eexists _, _. split; [exact Hrun|]. simpl. rewrite lookup_insert_eq.
  split_and!; try done.
  - rewrite (headroom_exact _ Hinv'). simpl. lia.
  - intros h' t' Hh2 Ht2. apply (reserve_noop _ _ _ _ _ (set_data_ (buf_ b + h) b)).
    + simpl. by rewrite lookup_insert_eq.
    + lia.
    + lia.
Qed.

Lemma reserve_empty_reseats_witness :
  exists s1 b1,
    reserve (fun _ _ _ => throw OutOfMemory) 16 32 16 overflow_state
    = Ok (tt, s1) /\
    objs s1 !! 16 = Some b1 /\ headroom b1 = 16 /\ tailroom b1 = 48.
Proof.
  assert (Hb : objs overflow_state !! 16 = Some overflow_buf) by reflexivity.
  assert (Hinv : buf_inv overflow_buf).
  { split; unfold is_uint32, uint32_max; simpl; lia. }
  destruct (reserve_empty_reseats (fun _ _ _ => throw OutOfMemory) 16 32 16
              overflow_state overflow_buf Hb Hinv)
    as (s1 & b1 & Hrun & Hb1 & _ & _ & _ & Hh & _);
    try (unfold uint32_max; lia); try reflexivity.
  { vm_compute. intros [Hc _]. by apply Hc. }
  { vm_compute. discriminate. }
  exists s1, b1. split; [exact Hrun|]. split; [exact Hb1|]. split; [exact Hh|].
  vm_compute in Hrun. injection Hrun as <-.
  vm_compute in Hb1. injection Hb1 as <-. reflexivity.
Defined.

(** ** Share detection along a chain *)

Lemma set_objs_id (s : State) : set_objs (objs s) s = s.
Proof. by destruct s. Qed.

Lemma set_flags_same (b : IOBuf) : set_flags_ (flags_ b) b = b.
Proof. by destruct b. Qed.

Lemma set_objs_insert_same (s : State) (this : ptr) (b : IOBuf) :
  objs s !! this = Some b ->
  set_objs (<[this := set_flags_ (flags_ b) b]> (objs s)) s = s.
Proof.
  intros Hb. rewrite set_flags_same, insert_id by done. apply set_objs_id.
Qed.

Section SharedChainProps.

Variable LIKELY : Z -> Z.

Hypothesis LIKELY_zero : forall x, LIKELY x = 0 <-> x = 0.

(** With neither flag set, [isSharedOne] answers [false] at once. *)
Lemma isSharedOne_clear (this : ptr) (s : State) (b : IOBuf) :
  objs s !! this = Some b ->
  Z.land (flags_ b) kFlagUserOwned = 0 ->
  Z.land (flags_ b) kFlagMaybeShared = 0 ->
  isSharedOne LIKELY this s = Ok (false, s).
Proof.
  intros Hb Hu Hm. unfold isSharedOne. rewrite (bind_load _ _ _ _ Hb).
  destruct (Z.eqb_spec
              (LIKELY (Z.land (flags_ b) (Z.lor kFlagUserOwned kFlagMaybeShared)))
              0) as [Hz|Hnz]; [done|].
  exfalso. apply Hnz. apply (proj2 (LIKELY_zero _)).
  apply (proj2 (land_flags_zero _)). done.
Qed.

(** One run of [isSharedOne]: its answer, and the only change it can make,
    which is to the flags of [this] when the answer is [false]. *)
Lemma isSharedOne_run (this : ptr) (s : State) (b : IOBuf) :
  objs s !! this = Some b -> has_info (infos s) b ->
  exists res f',
    isSharedOne LIKELY this s
    = Ok (res, set_objs (<[this := set_flags_ f' b]> (objs s)) s) /\
    (res = true <-> reports_shared (infos s) b) /\
    (res = true -> f' = flags_ b) /\
    (res = false ->
     Z.land f' kFlagUserOwned = 0 /\ Z.land f' kFlagMaybeShared = 0).
Proof.
  intros Hb Hinfo.
  destruct (Z.eq_dec (Z.land (flags_ b) kFlagUserOwned) 0) as [Hu|Hu].
  - destruct (Z.eq_dec (Z.land (flags_ b) kFlagMaybeShared) 0) as [Hm|Hm].
    + exists false, (flags_ b).
      rewrite (set_objs_insert_same _ _ _ Hb).
      split; [by apply (isSharedOne_clear _ _ b)|]. split_and!; try done.
      split; [done|]. intros [?|[? _]]; done.
    + destruct (Hinfo Hu) as [info Hi].
      unfold isSharedOne. rewrite (bind_load _ _ _ _ Hb).
      destruct (Z.eqb_spec
                  (LIKELY (Z.land (flags_ b)
                                  (Z.lor kFlagUserOwned kFlagMaybeShared)))
                  0) as [Hz|Hnz].
      { apply (proj1 (LIKELY_zero _)) in Hz.
        apply (proj1 (land_flags_zero _)) in Hz. tauto. }
      destruct (Z.eqb_spec (Z.land (flags_ b) kFlagUserOwned) 0); [|done].
      simpl. unfold load_info. unfold mbind at 1, M_bind at 1. rewrite Hi.
      destruct (Z.ltb_spec 1 (refcount info)) as [Hlt|Hge]; simpl.
      * exists true, (flags_ b).
        rewrite (set_objs_insert_same _ _ _ Hb).
        split; [done|]. split_and!; try done.
        split; [|done]. intros _. right. split; [done|]. by exists info.
      * exists false, (Z.land (flags_ b) (wrap32 (Z.lnot kFlagMaybeShared))).
        split; [done|]. split_and!; try done.
        -- split; [done|]. intros [?|[_ (i & Hi' & Hlt)]]; [done|].
           rewrite Hi in Hi'. injection Hi' as <-. lia.
        -- intros _. split.
           ++ by rewrite clear_MaybeShared_UserOwned.
           ++ apply clear_MaybeShared_bit.
  - exists true, (flags_ b).
    rewrite (set_objs_insert_same _ _ _ Hb).
    split.
    + unfold isSharedOne. rewrite (bind_load _ _ _ _ Hb).
      destruct (Z.eqb_spec
                  (LIKELY (Z.land (flags_ b)
                                  (Z.lor kFlagUserOwned kFlagMaybeShared)))
                  0) as [Hz|Hnz].
      { apply (proj1 (LIKELY_zero _)) in Hz.
        apply (proj1 (land_flags_zero _)) in Hz. tauto. }
      by destruct (Z.eqb_spec (Z.land (flags_ b) kFlagUserOwned) 0).
    + split_and!; try done. split; [|done]. intros _. by left.
Qed.

(** X11.  Asking twice gives the same answer, and the second call changes
    nothing: a [true] answer leaves the store as it was, and after a
    [false] answer both flags are clear. *)
Theorem isSharedOne_idempotent (this : ptr) (s : State) (b : IOBuf) :
  objs s !! this = Some b -> has_info (infos s) b ->
  exists res s',
    isSharedOne LIKELY this s = Ok (res, s') /\
    isSharedOne LIKELY this s' = Ok (res, s') /\
    (res = true -> s' = s) /\
    infos s' = infos s /\ mem s' = mem s /\
    (forall x, x <> this -> objs s' !! x = objs s !! x).
Proof.
  intros Hb Hinfo.
  destruct (isSharedOne_run this s b Hb Hinfo)
    as (res & f' & Hrun & Hres & Htrue & Hfalse).
  destruct res.
  - rewrite (Htrue eq_refl), (set_objs_insert_same _ _ _ Hb) in Hrun.
    exists true, s. split_and!; try done.
  - destruct (Hfalse eq_refl) as [Hu Hm].
    eexists false, _. split; [exact Hrun|]. split_and!; try done.
    + apply (isSharedOne_clear _ _ (set_flags_ f' b)); try done.
      simpl. by rewrite lookup_insert_eq.
    + intros x Hx. simpl. by rewrite lookup_insert_ne.
Qed.

End SharedChainProps.

Lemma isSharedOne_idempotent_witness :
  exists s',
    isSharedOne (fun x => x) 16 shared_state = Ok (false, s') /\
    isSharedOne (fun x => x) 16 s' = Ok (false, s').
Proof.
  assert (HL : forall x : Z, (fun y : Z => y) x = 0 <-> x = 0)
    by (intros x; split; intros Hx; exact Hx).
  assert (Hb : objs shared_state !! 16 = Some shared_buf) by reflexivity.
  assert (Hi : has_info (infos shared_state) shared_buf).
  { intros _. eexists. reflexivity. }
  destruct (isSharedOne_idempotent (fun x => x) HL 16 shared_state shared_buf
              Hb Hi) as (res & s' & H1 & H2 & _).
  assert (Hres : res = false).
  { vm_compute in H1. by injection H1 as <- _. }
  subst res. exists s'. split; [exact H1|exact H2].
Defined.

Section IsSharedProps.

Variable LIKELY : Z -> Z.

Hypothesis LIKELY_zero : forall x, LIKELY x = 0 <-> x = 0.

(** One turn of the loop of [isShared]. *)
Lemma isShared_from_step (fuel : nat) (this cur n : ptr) (s : State)
  (b : IOBuf) :
  objs s !! cur = Some b -> has_info (infos s) b ->
  link_of next_ (objs s) cur = Some n ->
  (reports_shared (infos s) b /\
   isShared_from LIKELY fuel this cur s = Ok (true, s)) \/
  (~ reports_shared (infos s) b /\
   exists f',
     isShared_from LIKELY fuel this cur s
     = if n =? this
       then Ok (false, set_objs (<[cur := set_flags_ f' b]> (objs s)) s)
       else match fuel with
            | O => OutOfFuel
            | S fuel' =>
                isShared_from LIKELY fuel' this n
                  (set_objs (<[cur := set_flags_ f' b]> (objs s)) s)
            end).
Proof.
  intros Hb Hinfo Hn.
  destruct (isSharedOne_run LIKELY LIKELY_zero cur s b Hb Hinfo)
    as (res & f' & Hrun & Hres & Htrue & _).
  destruct res.
  - left. split; [by apply Hres|].
    rewrite (Htrue eq_refl), (set_objs_insert_same _ _ _ Hb) in Hrun.
    destruct fuel; simpl; by rewrite (bind_ok _ _ _ _ _ Hrun).
  - right. split.
    { intros Hsh. apply Hres in Hsh. done. }
    exists f'.
    assert (Hn1 : link_of next_
                    (objs (set_objs (<[cur := set_flags_ f' b]> (objs s)) s))
                    cur = Some n).
    { simpl. by rewrite (link_of_insert_same next_ _ cur cur b). }
    destruct fuel; simpl; rewrite (bind_ok _ _ _ _ _ Hrun);
      rewrite (bind_ok _ _ _ _ _ (get_next_run _ _ _ Hn1));
      by destruct (n =? this).
Qed.

Lemma isShared_from_links (this : ptr) (rest : list ptr) :
  forall (cur : ptr) (fuel : nat) (s : State),
    links next_ (objs s) (cur :: rest) this ->
    NoDup (cur :: rest) -> this ∉ rest ->
    (forall x, x ∈ cur :: rest ->
               exists b, objs s !! x = Some b /\ has_info (infos s) b) ->
    (List.length rest <= fuel)%nat ->
    exists res s',
      isShared_from LIKELY fuel this cur s = Ok (res, s') /\
      (res = true <->
       exists x b, x ∈ cur :: rest /\ objs s !! x = Some b /\
                   reports_shared (infos s) b) /\
      infos s' = infos s /\ mem s' = mem s /\
      (forall x, set_flags_ 0 <$> objs s' !! x = set_flags_ 0 <$> objs s !! x).
Proof.
  induction rest as [|y rest IH]; intros cur fuel s Hl Hnd Hthis Hobj Hfuel.
  - simpl in Hl. destruct Hl as [Hn _].
    destruct (Hobj cur) as (b & Hb & Hinfo); [apply list_elem_of_here|].
    destruct (isShared_from_step fuel this cur this s b Hb Hinfo Hn)
      as [[Hsh Hrun]|[Hsh [f' Hrun]]].
    + exists true, s. split_and!; try done.
      split; [|done]. intros _. exists cur, b.
      split_and!; try done. apply list_elem_of_here.
    + rewrite Z.eqb_refl in Hrun. eexists false, _.
      split; [exact Hrun|]. split_and!; try done.
      * split; [done|]. intros (x & b' & Hx & Hb' & Hsh').
        apply list_elem_of_singleton in Hx. subst x.
        rewrite Hb in Hb'. injection Hb' as <-. done.
      * intros x. simpl. rewrite lookup_insert.
        destruct (decide (cur = x)) as [<-|]; [|done]. by rewrite Hb.
  - change (links next_ (objs s) (cur :: y :: rest) this) with
      (link_of next_ (objs s) cur = Some y /\
       links next_ (objs s) (y :: rest) this) in Hl.
    destruct Hl as [Hn Hl].
    destruct (Hobj cur) as (b & Hb & Hinfo); [apply list_elem_of_here|].
    apply NoDup_cons in Hnd as [Hcur Hnd].
    apply not_elem_of_cons in Hthis as [Hy Hthis].
    destruct (isShared_from_step fuel this cur y s b Hb Hinfo Hn)
      as [[Hsh Hrun]|[Hsh [f' Hrun]]].
    + exists true, s. split_and!; try done.
      split; [|done]. intros _. exists cur, b.
      split_and!; try done. apply list_elem_of_here.
    + destruct (Z.eqb_spec y this); [congruence|].
      destruct fuel as [|fuel]; [simpl in Hfuel; lia|].
      set (s1 := set_objs (<[cur := set_flags_ f' b]> (objs s)) s) in *.
      assert (Hother : forall x, x ∈ y :: rest ->
                                 objs s1 !! x = objs s !! x).
      { intros x Hx. simpl. apply lookup_insert_ne. by intros <-. }
      destruct (IH y fuel s1) as (res & s' & Hrec & Hres & Hi & Hm & Hfl).
      { apply (links_frame next_ (objs s)); [|done].
        intros x _. simpl. by apply (link_of_insert_same next_ _ cur x b). }
      { done. }
      { done. }
      { intros x Hx. rewrite (Hother x Hx). apply Hobj.
        by apply list_elem_of_further. }
      { simpl in Hfuel. lia. }
      exists res, s'. rewrite Hrun. split; [exact Hrec|].
      split_and!; try done.
      * rewrite Hres. split.
        -- intros (x & b' & Hx & Hb' & Hsh').
           exists x, b'. rewrite (Hother x Hx) in Hb'.
           split_and!; try done. by apply list_elem_of_further.
        -- intros (x & b' & Hx & Hb' & Hsh').
           apply elem_of_cons in Hx as [->|Hx].
           { rewrite Hb in Hb'. injection Hb' as <-. done. }
           exists x, b'. by rewrite (Hother x Hx).
      * intros x. rewrite Hfl. simpl. rewrite lookup_insert.
        destruct (decide (cur = x)) as [<-|]; [|done]. by rewrite Hb.
Qed.

(** X12.  On a chain whose members that are not UserOwned all have a
    [SharedInfo], [isShared] returns [true] exactly when [isSharedOne]
    would report some member as shared.  It never touches reference
    counts or bytes, and the only fields it may rewrite are flags: the
    chain is the same chain afterwards. *)
Theorem isShared_spec (this : ptr) (r : list ptr) (s : State) (fuel : nat) :
  is_chain (objs s) (this :: r) ->
  (forall x, x ∈ this :: r ->
             exists b, objs s !! x = Some b /\ has_info (infos s) b) ->
  (List.length r <= fuel)%nat ->
  exists res s',
    isShared LIKELY fuel this s = Ok (res, s') /\
    (res = true <->
     exists x b, x ∈ this :: r /\ objs s !! x = Some b /\
                 reports_shared (infos s) b) /\
    infos s' = infos s /\ mem s' = mem s /\
    (forall x, set_flags_ 0 <$> objs s' !! x = set_flags_ 0 <$> objs s !! x) /\
    is_chain (objs s') (this :: r).
Proof.
  intros Hc Hobj Hfuel.
  pose proof Hc as (Hne & Hnd & Hnull & Hn & Hp).
  assert (Hthis : this ∉ r) by (by apply NoDup_cons in Hnd as [? _]).
  destruct (isShared_from_links this r this fuel s Hn Hnd Hthis Hobj Hfuel)
    as (res & s' & Hrun & Hres & Hi & Hm & Hfl).
  exists res, s'. split; [exact Hrun|].
  do 4 (split; [done|]). unfold is_chain. split_and!; try done.
  - apply (links_frame next_ (objs s)); [|done].
    intros x _. unfold link_of. specialize (Hfl x).
    destruct (objs s' !! x) as [b'|], (objs s !! x) as [b|];
      simpl in *; try done.
    injection Hfl as Hnext _. by rewrite Hnext.
  - apply (links_frame prev_ (objs s)); [|done].
    intros x _. unfold link_of. specialize (Hfl x).
    destruct (objs s' !! x) as [b'|], (objs s !! x) as [b|];
      simpl in *; try done.
    injection Hfl as _ Hprev _. by rewrite Hprev.
Qed.


End IsSharedProps.

Lemma shared_chain_is_chain :
  is_chain (objs shared_chain_state) [16; 32; 48; 64; 80].
Proof. apply (bool_decide_unpack _). vm_compute. exact I. Qed.

Lemma shared_chain_has_info (x : Z) :
  x ∈ [16; 32; 48; 64; 80] ->
  exists b, objs shared_chain_state !! x = Some b /\
            has_info (infos shared_chain_state) b.
Proof.
  intros Hx.
  repeat (apply elem_of_cons in Hx as [->|Hx]);
    [..|by apply elem_of_nil in Hx];
    (eexists; split; [reflexivity|]; intros _; eexists; reflexivity).
Qed.

Lemma isShared_spec_witness :
  exists s', isShared (fun x => x) 4 16 shared_chain_state = Ok (true, s').
Proof.
  assert (HL : forall x : Z, (fun y : Z => y) x = 0 <-> x = 0)
    by (intros x; split; intros Hx; exact Hx).
  destruct (isShared_spec (fun x => x) HL 16 [32; 48; 64; 80]
              shared_chain_state 4 shared_chain_is_chain
              shared_chain_has_info ltac:(simpl; lia))
    as (res & s' & Hrun & Hres & _).
  assert (Htrue : res = true).
  { apply Hres. exists 64, (set_flags_ kFlagMaybeShared (chain5_node 48 64 80)).
    split_and!.
    - repeat (first [apply list_elem_of_here | apply list_elem_of_further]).
    - reflexivity.
    - right. split; [vm_compute; discriminate|].
      eexists. split; [reflexivity|]. simpl. lia. }
  subst res. exists s'. exact Hrun.
Defined.


(** ** unlink and pop *)

Lemma alter_next_prev_comm (v w p q : ptr) (o : gmap Z IOBuf) :
  alter (set_next_ v) p (alter (set_prev_ w) q o)
  = alter (set_prev_ w) q (alter (set_next_ v) p o).
Proof.
  apply map_eq. intros i. rewrite !lookup_alter.
  repeat case_decide; simplify_eq; try done.
  rewrite <- !option_fmap_compose.
  match goal with |- context [o !! ?k] => by destruct (o !! k) end.
Qed.

(** The four assignments of [unlink()] leave the same objects as those of
    [separateChain(this, this)]. *)
Lemma unlinked_separated (this P N : ptr) (o : gmap Z IOBuf) :
  unlinked this P N o = separated this this P N o.
Proof.
  unfold unlinked, separated. by rewrite (alter_next_prev_comm N P P N o).
Qed.

Lemma unlink_steps {A : Type} (k : ptr -> M A) (this P N : ptr) (s : State) :
  link_of next_ (objs s) this = Some N ->
  link_of prev_ (objs s) this = Some P ->
  is_Some (objs s !! P) -> is_Some (objs s !! N) ->
  (n ← get_next this; p ← get_prev this; put_prev n p;;
   p ← get_prev this; n ← get_next this; put_next p n;;
   put_prev this this;;
   put_next this this;;
   k this) s
  = k this (set_objs (unlinked this P N (objs s)) s).
Proof.
  intros HN HP HsP HsN.
  assert (Hst : is_Some (objs s !! this)).
  { unfold link_of in HP. destruct (objs s !! this); [by eexists|done]. }
  rewrite (bind_ok _ _ _ _ _ (get_next_run _ _ _ HN)).
  rewrite (bind_ok _ _ _ _ _ (get_prev_run _ _ _ HP)).
  rewrite (bind_ok _ _ _ _ _ (put_prev_run N P s HsN)).
  set (s1 := set_objs (alter (set_prev_ P) N (objs s)) s).
  assert (HP1 : link_of prev_ (objs s1) this = Some P).
  { simpl. destruct (decide (this = N)) as [->|Hne].
    - by apply link_of_alter_hit.
    - by rewrite link_of_alter_ne. }
  assert (HN1 : link_of next_ (objs s1) this = Some N).
  { simpl. by rewrite link_of_alter_other. }
  rewrite (bind_ok _ _ _ _ _ (get_prev_run _ _ _ HP1)).
  rewrite (bind_ok _ _ _ _ _ (get_next_run _ _ _ HN1)).
  assert (HsP1 : is_Some (objs s1 !! P)) by (simpl; by apply is_Some_alter).
  rewrite (bind_ok _ _ _ _ _ (put_next_run P N s1 HsP1)).
  set (s2 := set_objs (alter (set_next_ N) P (objs s1)) s1).
  assert (Hst2 : is_Some (objs s2 !! this))
    by (simpl; by rewrite !is_Some_alter).
  rewrite (bind_ok _ _ _ _ _ (put_prev_run this this s2 Hst2)).
  set (s3 := set_objs (alter (set_prev_ this) this (objs s2)) s2).
  assert (Hst3 : is_Some (objs s3 !! this))
    by (simpl; by rewrite !is_Some_alter).
  rewrite (bind_ok _ _ _ _ _ (put_next_run this this s3 Hst3)).
  reflexivity.
Qed.

(** The links of [this] in a chain, and the objects they lead to. *)
Lemma chain_links_of (o : gmap Z IOBuf) (l : list ptr) (this : ptr) :
  is_chain o l -> this ∈ l ->
  exists N P,
    link_of next_ o this = Some N /\ link_of prev_ o this = Some P /\
    is_Some (o !! P) /\ is_Some (o !! N).
Proof.
  intros Hc Hin.
  destruct (is_chain_inverse _ _ _ Hc Hin) as (N & P & HN & _ & HP & _ & HNin & HPin).
  destruct Hc as (_ & _ & _ & Hn & _).
  exists N, P. split_and!; try done.
  - by apply (cyclic_elem _ _ _ _ Hn).
  - by apply (cyclic_elem _ _ _ _ Hn).
Qed.

(** What [unlink] and [pop] do to the chain [this :: r]: both leave the
    same store, in which [this] is a chain by itself and [r] (when there
    is one) is a chain in its old order; only link fields change. *)
Lemma unlink_pop_chain (this : ptr) (r : list ptr) (s : State) :
  is_chain (objs s) (this :: r) ->
  exists s',
    unlink this s = Ok (this, s') /\
    pop this s = Ok (List.hd nullptr r, s') /\
    is_chain (objs s') [this] /\
    (r <> [] -> is_chain (objs s') r) /\
    (forall x, payload <$> objs s' !! x = payload <$> objs s !! x) /\
    infos s' = infos s /\ mem s' = mem s.
Proof.
  intros Hc.
  destruct (chain_links_of _ _ this Hc) as (N & P & HN & HP & HsP & HsN).
  { apply list_elem_of_here. }
  destruct (chain_head_next _ _ _ Hc) as [HN' Hsingle].
  rewrite HN in HN'. injection HN' as HNeq.
  exists (set_objs (unlinked this P N (objs s)) s).
  assert (Hunlink : unlink this s
                    = Ok (this, set_objs (unlinked this P N (objs s)) s)).
  { unfold unlink. by rewrite (unlink_steps (fun p => mret p) this P N s). }
  assert (Hpop : pop this s
                 = Ok (List.hd nullptr r,
                       set_objs (unlinked this P N (objs s)) s)).
  { unfold pop. rewrite (bind_ok _ _ _ _ _ (get_next_run _ _ _ HN)).
    rewrite (unlink_steps
               (fun _ => mret (if N =? this then nullptr else N))
               this P N s) by done.
    destruct r as [|y r]; simpl in *.
    - subst N. by rewrite Z.eqb_refl.
    - subst N. destruct (Z.eqb_spec y this) as [Heq|]; [|done].
      apply Hsingle in Heq. done. }
  split; [done|]. split; [done|]. simpl.
  rewrite unlinked_separated.
  destruct r as [|y r].
  - (* [this] was alone *)
    simpl in HNeq. subst N.
    assert (HPeq : P = this).
    { destruct Hc as (_ & _ & _ & _ & Hp). unfold cyclic in Hp. simpl in Hp.
      destruct Hp as [Hp _]. congruence. }
    subst P.
    assert (Hst : is_Some (objs s !! this)) by done.
    split_and!; try done.
    + split_and!; try done.
      * apply NoDup_singleton.
      * destruct Hc as (_ & _ & Hnull & _). done.
      * unfold cyclic, separated. simpl. split; [|done].
        apply link_of_alter_hit; [done|]. by rewrite !is_Some_alter.
      * unfold cyclic, separated. simpl. split; [|done].
        rewrite (link_of_alter_other prev_ (set_next_ _)) by done.
        apply link_of_alter_hit; [done|]. by rewrite !is_Some_alter.
    + intros x. apply payload_separated.
  - (* [this] leaves the chain [y :: r] *)
    assert (Hrot : is_chain (objs s) (y :: r ++ [this] ++ [])).
    { rewrite app_nil_r.
      apply (is_chain_rotate (objs s) [this] (y :: r)); done. }
    destruct (separateChain_detaches s y r [this] [] this this Hrot
                eq_refl eq_refl)
      as (s' & Hsep & Hc_this & Hc_rest & _).
    rewrite (separateChain_run y this this P N s HP HN HsP HsN) in Hsep.
    injection Hsep as <-. simpl in Hc_this, Hc_rest.
    rewrite app_nil_r in Hc_rest.
    split_and!; try done. intros x. apply payload_separated.
Qed.

(** X14.  [unlink()] on the chain [this :: r] returns [this]; afterwards [this]
    is a chain by itself, the other members (if any) form a chain in
    their old order, and descriptors differ from before in their links
    only. *)
Theorem unlink_spec (this : ptr) (r : list ptr) (s : State) :
  is_chain (objs s) (this :: r) ->
  exists s',
    unlink this s = Ok (this, s') /\
    is_chain (objs s') [this] /\
    (r <> [] -> is_chain (objs s') r) /\
    isChained this s' = Ok (false, s') /\
    (forall x, payload <$> objs s' !! x = payload <$> objs s !! x) /\
    infos s' = infos s /\ mem s' = mem s.
Proof.
  intros Hc.
  destruct (unlink_pop_chain this r s Hc)
    as (s' & Hun & _ & Hthis & Hrest & Hpay & Hi & Hm).
  exists s'. split_and!; try done.
  destruct (chain_head_next _ _ _ Hthis) as [Hnext _].
  unfold link_of in Hnext.
  destruct (objs s' !! this) as [b|] eqn:Hb; [|done].
  rewrite (isChained_run _ _ _ Hb). simpl in Hnext.
  injection Hnext as ->. by rewrite Z.eqb_refl.
Qed.

Lemma unlink_spec_witness :
  exists s',
    unlink 16 chain5_state = Ok (16, s') /\
    is_chain (objs s') [16] /\ is_chain (objs s') [32; 48; 64; 80].
Proof.
  destruct (unlink_spec 16 [32; 48; 64; 80] chain5_state chain5_is_chain)
    as (s' & Hrun & Hthis & Hrest & _).
  exists s'. split; [exact Hrun|]. split; [exact Hthis|].
  apply Hrest. discriminate.
Defined.

(** X15.  [pop()] on the chain [this :: r] has the effect of [unlink()] on the
    store and returns the element that followed [this], which now heads
    the chain of the other members, or [nullptr] when [this] was alone. *)
Theorem pop_spec (this : ptr) (r : list ptr) (s : State) :
  is_chain (objs s) (this :: r) ->
  exists s',
    pop this s = Ok (List.hd nullptr r, s') /\
    unlink this s = Ok (this, s') /\
    (List.hd nullptr r = nullptr <-> r = []) /\
    is_chain (objs s') [this] /\
    (r <> [] -> is_chain (objs s') r).
Proof.
  intros Hc.
  destruct (unlink_pop_chain this r s Hc)
    as (s' & Hun & Hpop & Hthis & Hrest & _).
  exists s'. split_and!; try done.
  destruct Hc as (_ & _ & Hnull & _).
  destruct r as [|y r]; simpl; [done|].
  split; [|done]. intros ->. exfalso.
  apply Hnull, list_elem_of_further, list_elem_of_here.
Qed.

Lemma pop_spec_witness :
  exists s',
    pop 16 chain5_state = Ok (32, s') /\
    is_chain (objs s') [32; 48; 64; 80].
Proof.
  destruct (pop_spec 16 [32; 48; 64; 80] chain5_state chain5_is_chain)
    as (s' & Hrun & _ & _ & _ & Hrest).
  exists s'. split; [exact Hrun|]. apply Hrest. discriminate.
Defined.

(** X16.  Taking one element out of a chain can be done from either side:
    [x->unlink()] and [y->separateChain(x, x)], called on another member
    [y] of the same chain, return [x] and leave the same store. *)
Theorem unlink_is_separateChain (y x : ptr) (l1 l2 : list ptr) (s : State) :
  is_chain (objs s) (y :: l1 ++ [x] ++ l2) ->
  exists s',
    unlink x s = Ok (x, s') /\ separateChain y x x s = Ok (x, s').
Proof.
  intros Hc.
  assert (Hin : x ∈ y :: l1 ++ [x] ++ l2).
  { rewrite elem_of_cons, !elem_of_app, list_elem_of_singleton. tauto. }
  destruct (chain_links_of _ _ x Hc Hin) as (N & P & HN & HP & HsP & HsN).
  exists (set_objs (unlinked x P N (objs s)) s). split.
  - unfold unlink. by rewrite (unlink_steps (fun p => mret p) x P N s).
  - rewrite unlinked_separated. by apply separateChain_run.
Qed.

Lemma unlink_is_separateChain_witness :
  exists s',
    unlink 48 chain5_state = Ok (48, s') /\
    separateChain 16 48 48 chain5_state = Ok (48, s').
Proof.
  exact (unlink_is_separateChain 16 48 [32] [64; 80] chain5_state
           chain5_is_chain).
Defined.

(** ** coalesce on a single descriptor, iteration from any member *)

(** X17.  On a descriptor that is not chained, [coalesce()] does not call
    [coalesceSlow], leaves the store as it is, and returns the range
    [data, data + length), the same range that iteration yields for it. *)
Theorem coalesce_unchained (coalesceSlow_all : ptr -> M unit) (this : ptr)
  (s : State) (b : IOBuf) :
  objs s !! this = Some b -> next_ b = this ->
  coalesce coalesceSlow_all this s
  = Ok (mkByteRange (data b) (data b + length b), s) /\
  range_at (objs s) this = mkByteRange (data b) (data b + length b).
Proof.
  intros Hb Hnext. split.
  - unfold coalesce. rewrite (bind_ok _ _ _ _ _ (isChained_run _ _ _ Hb)).
    rewrite Hnext, Z.eqb_refl. simpl.
    erewrite bind_ok; [|reflexivity]. by rewrite (bind_load _ _ _ _ Hb).
  - unfold range_at. by rewrite Hb.
Qed.

Lemma coalesce_unchained_witness :
  coalesce (fun _ => throw Overflow) 16 overflow_state
  = Ok (mkByteRange 4096 4096, overflow_state).
Proof.
  exact (proj1 (coalesce_unchained (fun _ => throw Overflow) 16
                  overflow_state overflow_buf eq_refl eq_refl)).
Defined.

(** X18.  A chain can be iterated from any of its members: [begin] built from
    the member [x] of the chain [l1 ++ x :: l2] yields the ranges of [x],
    then of the members after it, then of the members before it, one
    per member, and leaves the store unchanged. *)
Theorem iterate_from_any_member (s : State) (x : ptr) (l1 l2 : list ptr) :
  is_chain (objs s) (l1 ++ x :: l2) ->
  exists first,
    cbegin x s = Ok (first, s) /\
    (forall fuel, (List.length (l1 ++ x :: l2) <= fuel)%nat ->
       iterate fuel first end_iterator s
       = Ok (range_at (objs s) <$> (x :: l2 ++ l1), s)).
Proof.
  intros Hc. apply is_chain_rotate in Hc; [|done]. simpl in Hc.
  destruct Hc as (_ & Hnd & Hnull & Hn & _).
  assert (Hx0 : x <> nullptr).
  { intros ->. apply Hnull, list_elem_of_here. }
  assert (Hsx : is_Some (objs s !! x)).
  { apply (cyclic_elem _ _ _ _ Hn), list_elem_of_here. }
  apply NoDup_cons in Hnd as [Hxr _].
  eexists. split; [by apply cbegin_run|].
  intros fuel Hfuel. apply iterate_links; try done.
  revert Hfuel. simpl. rewrite !length_app. simpl. lia.
Qed.

Lemma iterate_from_any_member_witness :
  exists first,
    cbegin 64 chain5_state = Ok (first, chain5_state) /\
    iterate 5 first end_iterator chain5_state
    = Ok ([mkByteRange 4160 4162; mkByteRange 4176 4178;
           mkByteRange 4112 4114; mkByteRange 4128 4130;
           mkByteRange 4144 4146], chain5_state).
Proof.
  destruct (iterate_from_any_member chain5_state 64 [16; 32; 48] [80]
              chain5_is_chain) as (first & Hb & Hit).
  exists first. split; [exact Hb|].
  etransitivity; [apply (Hit 5%nat); simpl; lia|]. reflexivity.
Defined.

(** ** copyBuffer over a factory that keeps the contract of create *)

(** What [copyBuffer] does after the factory has returned an empty
    descriptor. *)
Lemma copyBuffer_after_create (create : Z -> M ptr) (p size h t : Z)
  (s s1 : State) (buf : ptr) (b : IOBuf) :
  create (wrap32 (h + size + t)) s = Ok (buf, s1) ->
  objs s1 !! buf = Some b -> length_ b = 0 ->
  exists s2,
    copyBuffer create p size h t s = Ok (buf, s2) /\
    objs s2 !! buf = Some (append size (set_data_ (data_ b + h) b)) /\
    mem s2 = memcpy (mem s1) (data_ b + h) p size /\
    infos s2 = infos s1 /\
    (forall x, x <> buf -> objs s2 !! x = objs s1 !! x).
Proof.
  intros Hcreate Hb Hlen. unfold copyBuffer.
  rewrite (bind_ok _ _ _ _ _ Hcreate).
  rewrite (bind_ok _ _ _ _ _ (call_mem_run _ _ _ _ Hb)).
  erewrite bind_load; [|simpl; apply lookup_insert_eq].
  erewrite bind_ok; [|reflexivity].
  erewrite bind_ok; [|apply call_run; simpl; apply lookup_insert_eq].
  eexists. split; [reflexivity|]. simpl.
  unfold advance. rewrite Hlen. simpl. split_and!; try reflexivity.
  - by rewrite lookup_insert_eq.
  - intros x Hx. by rewrite !lookup_insert_ne.
Qed.

(** X19.  The header says of [create] that the new descriptor has at least the
    capacity asked for, that its data pointer is at the start of the
    buffer and that its length is 0.  For any factory whose call has
    returned such a descriptor without disturbing the input bytes, and
    sizes whose sum fits a [uint32_t], [copyBuffer] returns that
    descriptor with the input bytes in its window, [length = size],
    [headroom] exactly as asked, [tailroom] at least as asked, and the
    invariant holding; no other descriptor changes. *)
Theorem copyBuffer_roundtrip (create : Z -> M ptr) (p size h t : Z)
  (s s1 : State) (buf : ptr) (b : IOBuf) :
  0 <= size -> 0 <= h -> 0 <= t -> h + size + t <= uint32_max ->
  create (h + size + t) s = Ok (buf, s1) ->
  objs s1 !! buf = Some b ->
  data_ b = buf_ b -> length_ b = 0 ->
  h + size + t <= capacity_ b -> is_uint32 (capacity_ b) ->
  bytes_at (mem s1) p size = bytes_at (mem s) p size ->
  exists s2 b2,
    copyBuffer create p size h t s = Ok (buf, s2) /\
    objs s2 !! buf = Some b2 /\
    bytes_at (mem s2) (data b2) (length b2) = bytes_at (mem s) p size /\
    length b2 = size /\ headroom b2 = h /\ t <= tailroom b2 /\
    buf_inv b2 /\
    buffer b2 = buffer b /\ capacity b2 = capacity b /\
    next_ b2 = next_ b /\ prev_ b2 = prev_ b /\
    infos s2 = infos s1 /\
    (forall x, x <> buf -> objs s2 !! x = objs s1 !! x).
Proof.
  intros Hsize Hh Ht Hsum Hcreate Hb Hdata Hlen Hcap Hucap Hbytes.
  assert (Hw : wrap32 (h + size + t) = h + size + t).
  { apply wrap32_small. unfold is_uint32. lia. }
  rewrite <- Hw in Hcreate.
  destruct (copyBuffer_after_create create p size h t s s1 buf b
              Hcreate Hb Hlen) as (s2 & Hrun & Hb2 & Hm & Hi & Hother).
  eexists s2, _. split; [exact Hrun|]. split; [exact Hb2|].
  assert (Hu : is_uint32 (0 + size)).
  { unfold is_uint32 in *. lia. }
  assert (Hinv : buf_inv (append size (set_data_ (data_ b + h) b))).
  { unfold append. simpl. rewrite Hlen, (wrap32_small _ Hu).
    split; simpl; unfold is_uint32 in *; lia. }
  unfold length, data, buffer, capacity.
  rewrite (headroom_exact _ Hinv), (tailroom_exact _ Hinv).
  unfold append. simpl. rewrite Hlen, (wrap32_small _ Hu).
  split_and!; try done; try lia.
  - rewrite Hm, <- Hbytes. apply bytes_at_ext. intros i Hi'.
    unfold memcpy. apply memmove_dst. lia.
  - unfold append in Hinv. simpl in Hinv.
    by rewrite Hlen, (wrap32_small _ Hu) in Hinv.
Qed.

Lemma copyBuffer_roundtrip_witness :
  exists s2 b2,
    copyBuffer (@create exact_allocator) 4104 5 8 3 roomy_state
    = Ok (fresh_obj roomy_state, s2) /\
    objs s2 !! fresh_obj roomy_state = Some b2 /\
    bytes_at (mem s2) (data b2) (length b2)
    = [Byte.x68; Byte.x65; Byte.x6c; Byte.x6c; Byte.x6f].
Proof.
  pose proof (@create_run exact_allocator (8 + 5 + 3) roomy_state
                ltac:(vm_compute; discriminate)) as Hcreate.
  set (b0 := mkIOBuf (fresh_obj roomy_state) (fresh_obj roomy_state)
                     8192 8192 0 16 0 kExtAllocated
                     (fresh_info roomy_state)).
  assert (H0 : 0 <= 5) by lia.
  assert (H1 : 0 <= 8) by lia.
  assert (H2 : 0 <= 3) by lia.
  assert (H3 : 8 + 5 + 3 <= uint32_max) by (unfold uint32_max; lia).
  assert (H4 : 8 + 5 + 3 <= capacity_ b0) by (simpl; lia).
  assert (H5 : is_uint32 (capacity_ b0))
    by (unfold is_uint32, uint32_max; simpl; lia).
  match type of Hcreate with
  | _ = Ok (_, ?s1) =>
      assert (Hb0 : objs s1 !! fresh_obj roomy_state = Some b0)
        by (simpl; apply lookup_insert_eq)
  end.
  destruct (copyBuffer_roundtrip (@create exact_allocator) 4104 5 8 3
              roomy_state _ _ b0 H0 H1 H2 H3 Hcreate Hb0 eq_refl eq_refl
              H4 H5 eq_refl)
    as (s2 & b2 & Hrun & Hb2 & Hbytes & _).
  exists s2, b2. split; [exact Hrun|]. split; [exact Hb2|].
  etransitivity; [exact Hbytes|]. reflexivity.
Defined.

(** X20.  [maybeCopyBuffer]: for the empty string it returns [nullptr] without
    calling the factory and leaves the store as it is; for a string of 1
    to [2^32 - 1] characters it is [copyBuffer] on the characters, hence,
    for a factory call that returns an empty descriptor of sufficient
    capacity without disturbing the characters, it returns that
    descriptor with the characters of the string in its window. *)
Theorem maybeCopyBuffer_spec (create : Z -> M ptr) (str : StdString)
  (h t : Z) (s : State) :
  (str_size str = 0 ->
   maybeCopyBuffer create str h t s = Ok (nullptr, s)) /\
  (0 < str_size str <= uint32_max ->
   maybeCopyBuffer create str h t s
   = copyBuffer create (str_data str) (str_size str) h t s /\
   maybeCopyBuffer create str h t s = copyBuffer_string create str h t s /\
   forall s1 buf b,
     0 <= h -> 0 <= t -> h + str_size str + t <= uint32_max ->
     create (h + str_size str + t) s = Ok (buf, s1) ->
     objs s1 !! buf = Some b ->
     data_ b = buf_ b -> length_ b = 0 ->
     h + str_size str + t <= capacity_ b -> is_uint32 (capacity_ b) ->
     bytes_at (mem s1) (str_data str) (str_size str)
     = bytes_at (mem s) (str_data str) (str_size str) ->
     exists s2 b2,
       maybeCopyBuffer create str h t s = Ok (buf, s2) /\
       objs s2 !! buf = Some b2 /\
       length b2 = str_size str /\
       bytes_at (mem s2) (data b2) (length b2)
       = bytes_at (mem s) (str_data str) (str_size str)).
Proof.
  split.
  - intros Hz. unfold maybeCopyBuffer. by rewrite Hz.
  - intros Hsz.
    assert (Hw : wrap32 (str_size str) = str_size str).
    { apply wrap32_small. unfold is_uint32. lia. }
    assert (Hm : maybeCopyBuffer create str h t s
                 = copyBuffer create (str_data str) (str_size str) h t s).
    { unfold maybeCopyBuffer. rewrite Hw.
      destruct (Z.eqb_spec (str_size str) 0); [lia|done]. }
    split; [done|]. split.
    { rewrite Hm. unfold copyBuffer_string. by rewrite Hw. }
    intros s1 buf b Hh Ht Hsum Hcreate Hb Hdata Hlen Hcap Hucap Hbytes.
    rewrite Hm.
    destruct (copyBuffer_after_create create (str_data str) (str_size str)
                h t s s1 buf b) as (s2 & Hrun & Hb2 & Hmem & _).
    { rewrite wrap32_small; [done|]. unfold is_uint32. lia. }
    { done. }
    { done. }
    eexists s2, _. split; [exact Hrun|]. split; [exact Hb2|].
    assert (Hu : is_uint32 (0 + str_size str)) by (unfold is_uint32; lia).
    unfold length, data, append. simpl. rewrite Hlen, (wrap32_small _ Hu).
    split; [lia|].
    rewrite Hmem, <- Hbytes. apply bytes_at_ext. intros i Hi.
    unfold memcpy. apply memmove_dst. lia.
Qed.

Lemma maybeCopyBuffer_spec_witness :
  maybeCopyBuffer (@create exact_allocator) (mkStdString 4104 0) 8 3
                  roomy_state = Ok (nullptr, roomy_state) /\
  maybeCopyBuffer (@create exact_allocator) (mkStdString 4104 5) 8 3
                  roomy_state
  = copyBuffer (@create exact_allocator) 4104 5 8 3 roomy_state.
Proof.
  split.
  - apply (maybeCopyBuffer_spec (@create exact_allocator)
             (mkStdString 4104 0) 8 3 roomy_state). reflexivity.
  - apply (maybeCopyBuffer_spec (@create exact_allocator)
             (mkStdString 4104 5) 8 3 roomy_state).
    simpl. unfold uint32_max. lia.
Defined.

(** ** Each reslice operation changes the room on one side only *)

(** X9.  Within their preconditions, [prepend(n)] takes [n] bytes from the
    headroom and [trimStart(n)] gives [n] bytes to it, both leaving the
    tailroom alone; [append(n)] takes [n] bytes from the tailroom and
    [trimEnd(n)] gives [n] bytes to it, both leaving the headroom alone.
    None of them changes the arena. *)
Theorem reslice_room_changes (n : Z) (b : IOBuf) :
  buf_inv b -> 0 <= n ->
  (n <= headroom b ->
   headroom (prepend n b) = headroom b - n /\
   tailroom (prepend n b) = tailroom b /\
   length (prepend n b) = length b + n) /\
  (n <= tailroom b ->
   tailroom (append n b) = tailroom b - n /\
   headroom (append n b) = headroom b /\
   length (append n b) = length b + n) /\
  (n <= length b ->
   headroom (trimStart n b) = headroom b + n /\
   tailroom (trimStart n b) = tailroom b /\
   length (trimStart n b) = length b - n) /\
  (n <= length b ->
   tailroom (trimEnd n b) = tailroom b + n /\
   headroom (trimEnd n b) = headroom b /\
   length (trimEnd n b) = length b - n).
Proof.
  intros Hb Hn.
  pose proof (headroom_exact b Hb) as Hh.
  pose proof (tailroom_exact b Hb) as Ht.
  split_and!; intros Hle.
  - pose proof (prepend_inv n b Hb Hn Hle) as Hb'.
    rewrite (headroom_exact _ Hb'), (tailroom_exact _ Hb'), Hh, Ht.
    rewrite Hh in Hle. destruct Hb as [Hl Hc Hhd Hw Htl].
    unfold length, prepend. simpl.
    rewrite wrap32_small by (unfold is_uint32 in *; lia). lia.
  - pose proof (append_inv n b Hb Hn Hle) as Hb'.
    rewrite (headroom_exact _ Hb'), (tailroom_exact _ Hb'), Hh, Ht.
    rewrite Ht in Hle. destruct Hb as [Hl Hc Hhd Hw Htl].
    unfold length, append. simpl.
    rewrite wrap32_small by (unfold is_uint32 in *; lia). lia.
  - pose proof (trimStart_inv n b Hb Hn Hle) as Hb'.
    rewrite (headroom_exact _ Hb'), (tailroom_exact _ Hb'), Hh, Ht.
    destruct Hb as [Hl Hc Hhd Hw Htl].
    unfold length, trimStart in *. simpl.
    rewrite wrap32_small by (unfold is_uint32 in *; lia). lia.
  - pose proof (trimEnd_inv n b Hb Hn Hle) as Hb'.
    rewrite (headroom_exact _ Hb'), (tailroom_exact _ Hb'), Hh, Ht.
    destruct Hb as [Hl Hc Hhd Hw Htl].
    unfold length, trimEnd in *. simpl.
    rewrite wrap32_small by (unfold is_uint32 in *; lia). lia.
Qed.

Lemma reslice_room_changes_witness :
  headroom (prepend 4 sample_buf) = 4 /\
  tailroom (prepend 4 sample_buf) = 51.
Proof.
  destruct (reslice_room_changes 4 sample_buf sample_buf_inv ltac:(lia))
    as [Hp _].
  destruct (Hp ltac:(vm_compute; discriminate)) as (H1 & H2 & _).
  split.
  - etransitivity; [exact H1|]. reflexivity.
  - etransitivity; [exact H2|]. reflexivity.
Defined.
